(** * Slack OAuth stores over MongoDB: installation store and state store

    A shallow embedding of
    [slack_sdk_oauth_mongodb/installation_store/mongodb.py] and
    [slack_sdk_oauth_mongodb/state_store/mongodb.py].

    Stored documents are Python dicts, modelled as [gmap string value];
    a collection is the list of its documents in insertion order; a
    filter is a dict from field names to conditions.  The driver-assigned
    [_id] is not modelled: every read projects it away and no filter of
    the two stores mentions it.  Timestamps (the floats of [time()]) are
    exact integers here. *)

From stdpp Require Import gmap strings list fin_maps sorting.
From Stdlib Require Import ZArith Lia.

Local Open Scope Z_scope.
Local Open Scope string_scope.

(** ** Python values, exceptions *)

Inductive value :=
  | VNull
  | VStr (s : string)
  | VNum (n : Z)
  | VBool (b : bool)
  | VList (l : list string).

#[global] Instance value_eq_dec : EqDecision value.
Proof. solve_decision. Defined.

Inductive exn := TypeError | KeyError.

Inductive result (A : Type) :=
  | Ok (a : A)
  | Raise (e : exn).
Arguments Ok {A} a.
Arguments Raise {A} e.

#[global] Instance result_ret : MRet result := fun A a => Ok a.

#[global] Instance result_bind : MBind result := fun A B k r =>
  match r with
  | Ok a => k a
  | Raise e => Raise e
  end.

(** [Optional[str]] arguments as stored values. *)
Definition of_opt_str (o : option string) : value :=
  match o with
  | Some s => VStr s
  | None => VNull
  end.

(** ** The document store collaborator *)

Module Mongo.

Abbreviation doc := (gmap string value).

(** A filter entry: a plain value (equality), [{"$ne": v}] or
    [{"$gt": n}]. *)
Inductive cond :=
  | CEq (v : value)
  | CNe (v : value)
  | CGt (n : Z).

Abbreviation query := (gmap string cond).

(** Equality against a field: [None] in a filter matches a field that is
    null or missing, any other value matches exactly. *)
Definition field_eqb (f : option value) (v : value) : bool :=
  match v with
  | VNull =>
      match f with
      | None | Some VNull => true
      | Some _ => false
      end
  | _ => bool_decide (f = Some v)
  end.

Definition cond_holds (f : option value) (c : cond) : bool :=
  match c with
  | CEq v => field_eqb f v
  | CNe v => negb (field_eqb f v)
  | CGt n =>
      match f with
      | Some (VNum x) => bool_decide (n < x)
      | _ => false
      end
  end.

Definition matches (q : query) (d : doc) : bool :=
  forallb (fun kc => cond_holds (d !! kc.1) kc.2) (map_to_list q).

Definition insert_one (d : doc) (c : list doc) : list doc :=
  (c ++ [d])%list.

(** [delete_many] returns the remaining collection and [deleted_count]. *)
Definition delete_many (q : query) (c : list doc) : list doc * nat :=
  (List.filter (fun d => negb (matches q d)) c,
   length (List.filter (matches q) c)).

(** Sort key of a document for [sort=[(f, DESCENDING)]]: the stores only
    sort on [installed_at], which every saved document carries as a
    number; a document without a number there sorts last. *)
Definition sort_key (f : string) (d : doc) : option Z :=
  match d !! f with
  | Some (VNum n) => Some n
  | _ => None
  end.

Definition key_ltb (a b : option Z) : bool :=
  match a, b with
  | None, Some _ => true
  | Some x, Some y => bool_decide (x < y)
  | _, _ => false
  end.

(** The first document of the descending order: the greatest key, the
    earliest inserted among equal keys. *)
Fixpoint greatest (f : string) (best : doc) (c : list doc) : doc :=
  match c with
  | [] => best
  | d :: c' =>
      if key_ltb (sort_key f best) (sort_key f d)
      then greatest f d c'
      else greatest f best c'
  end.

(** A projection [{k: 0, ...}] removes the listed fields. *)
Definition project_out (ks : list string) (d : doc) : doc :=
  foldr delete d ks.

Definition find_one (q : query) (excl : list string) (sortf : string)
    (c : list doc) : option doc :=
  match List.filter (matches q) c with
  | [] => None
  | d :: ds => Some (project_out excl (greatest sortf d ds))
  end.

Inductive direction := ASCENDING | DESCENDING.

#[global] Instance direction_eq_dec : EqDecision direction.
Proof. solve_decision. Defined.

Abbreviation index := (list (string * direction)).

(** [create_index] declares an index; declaring an existing one again
    changes nothing. *)
Definition create_index (ix : index) (ixs : list index) : list index :=
  if bool_decide (ix ∈ ixs) then ixs else (ixs ++ [ix])%list.

(** What a filter value [o : Optional[str]] asks of a field. *)
Definition field_is (f : option value) (o : option string) : Prop :=
  match o with
  | Some s => f = Some (VStr s)
  | None => f = None ∨ f = Some VNull
  end.

#[global] Instance field_is_dec f o : Decision (field_is f o).
Proof. destruct o; simpl; apply _. Defined.

(** [d] is not sorted after [d'] in the descending order on [f]. *)
Definition not_before (f : string) (d' d : doc) : Prop :=
  key_ltb (sort_key f d) (sort_key f d') = false.

(** [d] is a document of [c] that satisfies [P] and that no document of
    [c] satisfying [P] precedes in the descending order on [f]. *)
Definition latest_among (f : string) (P : doc → Prop) (c : list doc)
    (d : doc) : Prop :=
  d ∈ c ∧ P d ∧ ∀ d', d' ∈ c → P d' → not_before f d' d.

End Mongo.


(** ** Calling a Python method

    A signature lists the parameters after [self]: those that may be
    passed by position, those after a bare [*] (keyword-only), and those
    that have a default.  [check_call] is the argument binding of a call
    with [npos] positional arguments and the keywords [kws]. *)

Record signature := {
  sig_positional : list string;
  sig_kwonly : list string;
  sig_defaults : list string
}.

Definition check_call (sg : signature) (npos : nat) (kws : list string)
    : result unit :=
  let bound := (take npos (sig_positional sg) ++ kws)%list in
  if bool_decide (length (sig_positional sg) < npos)%nat then Raise TypeError
  else if negb (forallb (fun k =>
                 bool_decide (k ∈ (sig_positional sg ++ sig_kwonly sg)%list)) kws)
  then Raise TypeError
  else if negb (bool_decide (NoDup bound)) then Raise TypeError
  else if forallb (fun p =>
            bool_decide (p ∈ bound) || bool_decide (p ∈ sig_defaults sg))
          (sig_positional sg ++ sig_kwonly sg)%list
  then Ok ()
  else Raise TypeError.

(** Truth value of an [Optional[bool]] in a condition. *)
Definition truthy (b : option bool) : bool :=
  match b with
  | Some true => true
  | _ => false
  end.

(** ** The installation store *)

Module InstallationStore.
Import Mongo.

(** Modelled from the spec: the [Installation] value object of the Slack
    SDK, which is outside the repository; the fields are those of the
    data model (identity, the six bot credentials, [installed_at]). *)
Record Installation := {
  i_enterprise_id : option string;
  i_team_id : option string;
  i_user_id : option string;
  i_bot_token : option string;
  i_bot_id : option string;
  i_bot_user_id : option string;
  i_bot_scopes : option (list string);
  i_bot_refresh_token : option string;
  i_bot_token_expires_at : option Z;
  i_installed_at : Z
}.

#[global] Instance Installation_eq_dec : EqDecision Installation.
Proof. solve_decision. Defined.

(** Modelled from the spec: the [Bot] value object of the Slack SDK, the
    subset of [Installation] without [user_id]. *)
Record Bot := {
  b_enterprise_id : option string;
  b_team_id : option string;
  b_bot_token : option string;
  b_bot_id : option string;
  b_bot_user_id : option string;
  b_bot_scopes : option (list string);
  b_bot_refresh_token : option string;
  b_bot_token_expires_at : option Z;
  b_installed_at : Z
}.

(** Modelled from the spec: [Installation.to_bot()] of the Slack SDK,
    which derives the bot record of an installation. *)
Definition to_bot (i : Installation) : Bot := {|
  b_enterprise_id := i_enterprise_id i;
  b_team_id := i_team_id i;
  b_bot_token := i_bot_token i;
  b_bot_id := i_bot_id i;
  b_bot_user_id := i_bot_user_id i;
  b_bot_scopes := i_bot_scopes i;
  b_bot_refresh_token := i_bot_refresh_token i;
  b_bot_token_expires_at := i_bot_token_expires_at i;
  b_installed_at := i_installed_at i
|}.

Definition of_opt_num (o : option Z) : value :=
  match o with
  | Some n => VNum n
  | None => VNull
  end.

Definition of_opt_list (o : option (list string)) : value :=
  match o with
  | Some l => VList l
  | None => VNull
  end.

(** [asdict(InstallationDocument.from_installation(i))]: one entry per
    dataclass field. *)
Definition installation_asdict (i : Installation) : doc :=
  list_to_map [
    ("enterprise_id", of_opt_str (i_enterprise_id i));
    ("team_id", of_opt_str (i_team_id i));
    ("user_id", of_opt_str (i_user_id i));
    ("bot_token", of_opt_str (i_bot_token i));
    ("bot_id", of_opt_str (i_bot_id i));
    ("bot_user_id", of_opt_str (i_bot_user_id i));
    ("bot_scopes", of_opt_list (i_bot_scopes i));
    ("bot_refresh_token", of_opt_str (i_bot_refresh_token i));
    ("bot_token_expires_at", of_opt_num (i_bot_token_expires_at i));
    ("installed_at", VNum (i_installed_at i))
  ].

(** [asdict(BotDocument.from_bot(b))]. *)
Definition bot_asdict (b : Bot) : doc :=
  list_to_map [
    ("enterprise_id", of_opt_str (b_enterprise_id b));
    ("team_id", of_opt_str (b_team_id b));
    ("bot_token", of_opt_str (b_bot_token b));
    ("bot_id", of_opt_str (b_bot_id b));
    ("bot_user_id", of_opt_str (b_bot_user_id b));
    ("bot_scopes", of_opt_list (b_bot_scopes b));
    ("bot_refresh_token", of_opt_str (b_bot_refresh_token b));
    ("bot_token_expires_at", of_opt_num (b_bot_token_expires_at b));
    ("installed_at", VNum (b_installed_at b))
  ].

(** The store object together with the two collections it owns and the
    indexes declared on each. *)
Record store := {
  client_id : string;
  slack_installations_collection : list doc;
  slack_bots_collection : list doc;
  installations_indexes : list index;
  bots_indexes : list index
}.

(** The two key lists [init] passes to [create_index]. *)
Definition user_lookup_index : index :=
  [("client_id", ASCENDING); ("enterprise_id", ASCENDING);
   ("team_id", ASCENDING); ("user_id", ASCENDING);
   ("installed_at", ASCENDING)].

Definition scope_lookup_index : index :=
  [("client_id", ASCENDING); ("enterprise_id", ASCENDING);
   ("team_id", ASCENDING); ("installed_at", ASCENDING)].

Definition init (st : store) : store :=
  let ixs1 := create_index user_lookup_index (installations_indexes st) in
  let ixs2 := create_index scope_lookup_index ixs1 in
  {| client_id := client_id st;
     slack_installations_collection := slack_installations_collection st;
     slack_bots_collection := slack_bots_collection st;
     installations_indexes := ixs2;
     bots_indexes := bots_indexes st |}.

Definition save_bot (bot : Bot) (st : store) : store :=
  {| client_id := client_id st;
     slack_installations_collection := slack_installations_collection st;
     slack_bots_collection :=
       insert_one (bot_asdict bot ∪ {["client_id" := VStr (client_id st)]})
         (slack_bots_collection st);
     installations_indexes := installations_indexes st;
     bots_indexes := bots_indexes st |}.

Definition save (installation : Installation) (st : store) : store :=
  save_bot (to_bot installation)
    {| client_id := client_id st;
       slack_installations_collection :=
         insert_one
           (installation_asdict installation
              ∪ {["client_id" := VStr (client_id st)]})
           (slack_installations_collection st);
       slack_bots_collection := slack_bots_collection st;
       installations_indexes := installations_indexes st;
       bots_indexes := bots_indexes st |}.

(** The [team_id] entry of both finders' filters. *)
Definition scope_team (team_id : option string)
    (is_enterprise_install : option bool) : value :=
  if bool_decide (team_id = None) || truthy is_enterprise_install
  then VNull
  else of_opt_str team_id.

Definition scope_query (cid : string) (enterprise_id : option string)
    (team : value) : query :=
  list_to_map [
    ("client_id", CEq (VStr cid));
    ("enterprise_id", CEq (of_opt_str enterprise_id));
    ("team_id", CEq team)
  ].

Definition hidden : list string := ["_id"; "client_id"].

Definition find_bot (st : store) (enterprise_id team_id : option string)
    (is_enterprise_install : option bool) : option doc :=
  find_one
    (scope_query (client_id st) enterprise_id
       (scope_team team_id is_enterprise_install))
    hidden "installed_at" (slack_bots_collection st).

Definition bot_credential_fields : list string :=
  ["bot_token"; "bot_id"; "bot_user_id"; "bot_scopes";
   "bot_refresh_token"; "bot_token_expires_at"].

(** [d[f]]. *)
Definition getitem (d : doc) (f : string) : result value :=
  match d !! f with
  | Some v => Ok v
  | None => Raise KeyError
  end.

(** [{field: src[field] for field in fs}]. *)
Fixpoint pick_fields (fs : list string) (src : doc) : result doc :=
  match fs with
  | [] => Ok ∅
  | f :: fs' =>
      v ← getitem src f;
      rest ← pick_fields fs' src;
      Ok (<[f := v]> rest)
  end.

(** [d.update(u)]. *)
Definition update (d u : doc) : doc := u ∪ d.

Definition find_installation (st : store)
    (enterprise_id team_id user_id : option string)
    (is_enterprise_install : option bool) : result (option doc) :=
  let query0 :=
    scope_query (client_id st) enterprise_id
      (scope_team team_id is_enterprise_install) in
  let query :=
    match user_id with
    | Some u => <["user_id" := CEq (VStr u)]> query0
    | None => query0
    end in
  match find_one query hidden "installed_at"
          (slack_installations_collection st) with
  | None => Ok None
  | Some doc =>
      match user_id with
      | None => Ok (Some doc)
      | Some _ =>
          match find_one (<["bot_token" := CNe VNull]> query) hidden
                  "installed_at" (slack_installations_collection st) with
          | None => Ok (Some doc)
          | Some latest_bot_token_doc =>
              u ← pick_fields bot_credential_fields latest_bot_token_doc;
              Ok (Some (update doc u))
          end
      end
  end.

Definition delete_bot (st : store) (enterprise_id team_id : option string)
    : store :=
  {| client_id := client_id st;
     slack_installations_collection := slack_installations_collection st;
     slack_bots_collection :=
       (delete_many
          (scope_query (client_id st) enterprise_id (of_opt_str team_id))
          (slack_bots_collection st)).1;
     installations_indexes := installations_indexes st;
     bots_indexes := bots_indexes st |}.

Definition delete_installation (st : store)
    (enterprise_id team_id user_id : option string) : store :=
  let query0 :=
    scope_query (client_id st) enterprise_id (of_opt_str team_id) in
  let query :=
    match user_id with
    | Some u => <["user_id" := CEq (VStr u)]> query0
    | None => query0
    end in
  {| client_id := client_id st;
     slack_installations_collection := slack_installations_collection st;
     slack_bots_collection :=
       (delete_many query (slack_bots_collection st)).1;
     installations_indexes := installations_indexes st;
     bots_indexes := bots_indexes st |}.

(** Signatures of the methods the [async_] wrappers call; all four take
    their parameters after a bare [*]. *)
Definition find_bot_sig : signature :=
  {| sig_positional := [];
     sig_kwonly := ["enterprise_id"; "team_id"; "is_enterprise_install"];
     sig_defaults := ["is_enterprise_install"] |}.

Definition find_installation_sig : signature :=
  {| sig_positional := [];
     sig_kwonly :=
       ["enterprise_id"; "team_id"; "user_id"; "is_enterprise_install"];
     sig_defaults := ["user_id"; "is_enterprise_install"] |}.

Definition delete_bot_sig : signature :=
  {| sig_positional := [];
     sig_kwonly := ["enterprise_id"; "team_id"];
     sig_defaults := [] |}.

Definition delete_installation_sig : signature :=
  {| sig_positional := [];
     sig_kwonly := ["enterprise_id"; "team_id"; "user_id"];
     sig_defaults := ["user_id"] |}.

Definition save_sig : signature :=
  {| sig_positional := ["installation"]; sig_kwonly := [];
     sig_defaults := [] |}.

Definition save_bot_sig : signature :=
  {| sig_positional := ["bot"]; sig_kwonly := []; sig_defaults := [] |}.

(** The [async_] entry points: the value the coroutine yields when it is
    awaited, or the exception it raises. *)
Definition async_save (installation : Installation) (st : store)
    : result store :=
  _ ← check_call save_sig 1 [];
  Ok (save installation st).

Definition async_save_bot (bot : Bot) (st : store) : result store :=
  _ ← check_call save_bot_sig 1 [];
  Ok (save_bot bot st).

Definition async_find_bot (st : store)
    (enterprise_id team_id : option string)
    (is_enterprise_install : option bool) : result (option doc) :=
  _ ← check_call find_bot_sig 2 ["is_enterprise_install"];
  Ok (find_bot st enterprise_id team_id is_enterprise_install).

Definition async_find_installation (st : store)
    (enterprise_id team_id user_id : option string)
    (is_enterprise_install : option bool) : result (option doc) :=
  _ ← check_call find_installation_sig 2
        ["user_id"; "is_enterprise_install"];
  find_installation st enterprise_id team_id user_id is_enterprise_install.

Definition async_delete_bot (st : store)
    (enterprise_id team_id : option string) : result store :=
  _ ← check_call delete_bot_sig 2 [];
  Ok (delete_bot st enterprise_id team_id).

Definition async_delete_installation (st : store)
    (enterprise_id team_id user_id : option string) : result store :=
  _ ← check_call delete_installation_sig 2 ["user_id"];
  Ok (delete_installation st enterprise_id team_id user_id).

(** *** Specification vocabulary *)

(** The team a lookup is resolved against: none for an enterprise
    install or an absent [team_id]. *)
Definition effective_team (team_id : option string)
    (is_enterprise_install : option bool) : option string :=
  if bool_decide (team_id = None) || truthy is_enterprise_install
  then None
  else team_id.

(** [d] belongs to client [cid] and to the scope [(e, t)]. *)
Definition in_scope (cid : string) (e t : option string) (d : doc)
    : Prop :=
  d !! "client_id" = Some (VStr cid)
  ∧ field_is (d !! "enterprise_id") e
  ∧ field_is (d !! "team_id") t.

#[global] Instance in_scope_dec cid e t d : Decision (in_scope cid e t d).
Proof. unfold in_scope. apply _. Defined.

Definition of_user (u : string) (d : doc) : Prop :=
  d !! "user_id" = Some (VStr u).

Definition has_bot_token (d : doc) : Prop :=
  ∃ v, d !! "bot_token" = Some v ∧ v ≠ VNull.

(** The document [save] writes for [i] in a store of client [cid]. *)
Definition installation_doc (cid : string) (i : Installation) : doc :=
  installation_asdict i ∪ {["client_id" := VStr cid]}.

Definition has_fields (fs : list string) (d : doc) : bool :=
  forallb (fun f => bool_decide (is_Some (d !! f))) fs.

(** Bot documents carry no [user_id]; installation documents carry the
    six bot-credential fields. *)
Definition bots_ok (st : store) : Prop :=
  ∀ d : doc, d ∈ slack_bots_collection st → d !! "user_id" = None.

Definition installations_ok (st : store) : Prop :=
  ∀ d : doc, d ∈ slack_installations_collection st →
             has_fields bot_credential_fields d = true.

Definition save_all (l : list Installation) (st : store) : store :=
  foldl (fun s i => save i s) st l.

Definition with_client (cid : string) (st : store) : store :=
  {| client_id := cid;
     slack_installations_collection := slack_installations_collection st;
     slack_bots_collection := slack_bots_collection st;
     installations_indexes := installations_indexes st;
     bots_indexes := bots_indexes st |}.

(** A store object of client [cid] over two collections that do not
    exist yet. *)
Definition new_store (cid : string) : store :=
  {| client_id := cid;
     slack_installations_collection := [];
     slack_bots_collection := [];
     installations_indexes := [];
     bots_indexes := [] |}.

(** The states of the two collections that store objects can produce:
    the collections start empty and only the operations of a store
    object (of any client) change them. *)
Inductive reachable : store → Prop :=
  | reach_new cid :
      reachable (new_store cid)
  | reach_client cid st :
      reachable st → reachable (with_client cid st)
  | reach_init st :
      reachable st → reachable (init st)
  | reach_save i st :
      reachable st → reachable (save i st)
  | reach_save_bot b st :
      reachable st → reachable (save_bot b st)
  | reach_delete_bot e t st :
      reachable st → reachable (delete_bot st e t)
  | reach_delete_installation e t u st :
      reachable st → reachable (delete_installation st e t u).

(** A run of one store object: its mutating operations in call order. *)
Inductive op :=
  | Init
  | Save (i : Installation)
  | SaveBot (b : Bot)
  | DeleteBot (e t : option string)
  | DeleteInstallation (e t u : option string).

Definition step (st : store) (o : op) : store :=
  match o with
  | Init => init st
  | Save i => save i st
  | SaveBot b => save_bot b st
  | DeleteBot e t => delete_bot st e t
  | DeleteInstallation e t u => delete_installation st e t u
  end.

Definition run (ops : list op) (st : store) : store := foldl step st ops.

(** The installations a run saves, in call order. *)
Definition saved (ops : list op) : list Installation :=
  omap (fun o => match o with Save i => Some i | _ => None end) ops.


End InstallationStore.

(** ** The state store *)

Module StateStore.
Import Mongo.

Record store := {
  expiration_seconds : Z;
  slack_oauth_states_collection : list doc;
  states_indexes : list index
}.

(** [MongoDBAsyncOAuthStateStore(db, expiration_seconds)], where [coll]
    is the content of [db[oauth_states_collection_name]] and [ixs] its
    indexes.  The constructor stores its arguments. *)
Definition __init__ (coll : list doc) (ixs : list index)
    (expiration_seconds : Z) : result store :=
  Ok {| expiration_seconds := expiration_seconds;
        slack_oauth_states_collection := coll;
        states_indexes := ixs |}.

Definition init (st : store) : result store :=
  Ok {| expiration_seconds := expiration_seconds st;
        slack_oauth_states_collection := slack_oauth_states_collection st;
        states_indexes :=
          create_index [("state", ASCENDING)] (states_indexes st) |}.

(** [issue]: [uuid] is the string [str(uuid4())] produced by this call
    and [now] the reading of [time()]. *)
Definition issue (uuid : string) (now : Z) (st : store) : store * string :=
  ({| expiration_seconds := expiration_seconds st;
      slack_oauth_states_collection :=
        insert_one
          (list_to_map
             [("state", VStr uuid);
              ("expire_at", VNum (now + expiration_seconds st))])
          (slack_oauth_states_collection st);
      states_indexes := states_indexes st |},
   uuid).

Definition consume_query (state : string) (now : Z) : query :=
  list_to_map [("state", CEq (VStr state)); ("expire_at", CGt now)].

(** [consume]: [now] is the reading of [time()]. *)
Definition consume (state : string) (now : Z) (st : store) : store * bool :=
  let delete_result :=
    delete_many (consume_query state now)
      (slack_oauth_states_collection st) in
  ({| expiration_seconds := expiration_seconds st;
      slack_oauth_states_collection := delete_result.1;
      states_indexes := states_indexes st |},
   bool_decide (0 < delete_result.2)%nat).

Definition consume_sig : signature :=
  {| sig_positional := ["state"]; sig_kwonly := []; sig_defaults := [] |}.

Definition async_issue (uuid : string) (now : Z) (st : store)
    : result (store * string) :=
  Ok (issue uuid now st).

Definition async_consume (state : string) (now : Z) (st : store)
    : result (store * bool) :=
  _ ← check_call consume_sig 1 [];
  Ok (consume state now st).

(** A run of the store: the operations applied in order, with the
    values each call draws from [uuid4()] and [time()]. *)
Inductive op :=
  | Issue (uuid : string) (now : Z)
  | Consume (state : string) (now : Z).

Definition step (st : store) (o : op) : store :=
  match o with
  | Issue u now => (issue u now st).1
  | Consume s now => (consume s now st).1
  end.

Definition run (ops : list op) (st : store) : store := foldl step st ops.

Definition issues_of (s : string) (ops : list op) : nat :=
  length (List.filter
            (fun o => match o with
                      | Issue u _ => bool_decide (u = s)
                      | Consume _ _ => false
                      end) ops).

(** A record that [consume s] at time [now] deletes: it is a record of
    token [s] and its [expire_at] is a number greater than [now]. *)
Definition expires_after (now : Z) (d : doc) : Prop :=
  match d !! "expire_at" with
  | Some (VNum x) => now < x
  | _ => False
  end.

Definition live (s : string) (now : Z) (d : doc) : Prop :=
  d !! "state" = Some (VStr s) ∧ expires_after now d.

#[global] Instance expires_after_dec now d : Decision (expires_after now d).
Proof. unfold expires_after. destruct (d !! "expire_at") as [[]|]; apply _. Defined.

#[global] Instance live_dec s now d : Decision (live s now d).
Proof. unfold live. apply _. Defined.

(** The records of token [s] held by the store. *)
Definition records_of (s : string) (c : list doc) : list doc :=
  List.filter (fun d => bool_decide (d !! "state" = Some (VStr s))) c.

Definition op_time (o : op) : Z :=
  match o with
  | Issue _ now => now
  | Consume _ now => now
  end.

(** How many [consume s] calls of a run return true. *)
Fixpoint successes (s : string) (ops : list op) (st : store) : nat :=
  match ops with
  | [] => 0
  | o :: ops' =>
      (match o with
       | Consume s' now =>
           if bool_decide (s' = s) && (consume s' now st).2 then 1 else 0
       | Issue _ _ => 0
       end + successes s ops' (step st o))%nat
  end.

End StateStore.

(** ** Sample data *)

Module Examples.
Import Mongo InstallationStore.

Definition empty_store : store := new_store "C1".

(** Two installations in the scope (E1, T1): [U1] by user u1 without a
    bot token, [U2] by user u2, later, with one. *)
Definition U1 : Installation :=
  {| i_enterprise_id := Some "E1"; i_team_id := Some "T1";
     i_user_id := Some "u1"; i_bot_token := None; i_bot_id := None;
     i_bot_user_id := None; i_bot_scopes := None;
     i_bot_refresh_token := None; i_bot_token_expires_at := None;
     i_installed_at := 1 |}.

Definition U2 : Installation :=
  {| i_enterprise_id := Some "E1"; i_team_id := Some "T1";
     i_user_id := Some "u2"; i_bot_token := Some "xoxb-2";
     i_bot_id := Some "B2"; i_bot_user_id := Some "UB2";
     i_bot_scopes := Some ["chat:write"];
     i_bot_refresh_token := None; i_bot_token_expires_at := None;
     i_installed_at := 2 |}.

(** An org-wide installation of the same enterprise. *)
Definition ORG : Installation :=
  {| i_enterprise_id := Some "E1"; i_team_id := None;
     i_user_id := Some "u3"; i_bot_token := Some "xoxb-org";
     i_bot_id := Some "B3"; i_bot_user_id := Some "UB3";
     i_bot_scopes := Some ["chat:write"];
     i_bot_refresh_token := None; i_bot_token_expires_at := None;
     i_installed_at := 3 |}.

Definition two_users : store := save U2 (save U1 empty_store).

Definition empty_states : StateStore.store :=
  {| StateStore.expiration_seconds := 600;
     StateStore.slack_oauth_states_collection := [];
     StateStore.states_indexes := [] |}.

End Examples.

(** * Properties *)

(** ** The document store *)

Section MongoFacts.
Import Mongo.
Implicit Types (d : doc) (c : list doc) (q : query) (f : string).

Lemma field_eqb_is (fv : option value) (o : option string) :
  field_eqb fv (of_opt_str o) = true ↔ field_is fv o.
Proof.
  destruct o as [s|]; simpl.
  - apply bool_decide_eq_true.
  - destruct fv as [[]|]; split; intros H; try done;
      first [by left | by right | by destruct H].
Qed.

Lemma field_eqb_str (fv : option value) (s : string) :
  field_eqb fv (VStr s) = true ↔ fv = Some (VStr s).
Proof. apply bool_decide_eq_true. Qed.

Lemma field_neb_null (fv : option value) :
  negb (field_eqb fv VNull) = true ↔ ∃ v, fv = Some v ∧ v ≠ VNull.
Proof.
  destruct fv as [v|]; simpl.
  - split.
    + intros H. exists v. split; [done|]. intros ->. done.
    + intros (v' & [= <-] & Hv). by destruct v.
  - split; [done|]. intros (v & [=] & _).
Qed.

Lemma filter_elem (p : doc → bool) c d :
  d ∈ List.filter p c ↔ d ∈ c ∧ p d = true.
Proof. rewrite !list_elem_of_In. apply filter_In. Qed.

Lemma filter_nil_iff (p : doc → bool) c :
  List.filter p c = [] ↔ ∀ d, d ∈ c → p d = false.
Proof.
  induction c as [|x c IH]; simpl.
  - split; [intros _ d Hd; by apply elem_of_nil in Hd | done].
  - destruct (p x) eqn:Hx.
    + split; [done | intros H]. specialize (H x (list_elem_of_here _ _)).
      congruence.
    + rewrite IH. split.
      * intros H d [->|Hd]%elem_of_cons; auto.
      * intros H d Hd. apply H. by right.
Qed.

Lemma key_ltb_irrefl (a : option Z) : key_ltb a a = false.
Proof. destruct a; simpl; [|done]. apply bool_decide_eq_false. lia. Qed.

Lemma key_ltb_le (a b : option Z) :
  key_ltb a b = true → key_ltb b a = false.
Proof.
  destruct a, b; simpl; try done.
  rewrite bool_decide_eq_true, bool_decide_eq_false. lia.
Qed.

Lemma key_le_trans (a b x : option Z) :
  key_ltb b a = false → key_ltb x b = false → key_ltb x a = false.
Proof.
  destruct a, b, x; simpl; try done.
  rewrite !bool_decide_eq_false. lia.
Qed.

Lemma greatest_elem f best c : greatest f best c ∈ best :: c.
Proof.
  revert best. induction c as [|d c IH]; intros best; simpl.
  - left.
  - destruct (key_ltb _ _).
    + right. apply IH.
    + specialize (IH best). apply elem_of_cons in IH as [->|IH].
      * left.
      * right. by right.
Qed.

Lemma greatest_ge_best f best c :
  not_before f best (greatest f best c).
Proof.
  unfold not_before.
  revert best. induction c as [|d c IH]; intros best; simpl.
  - apply key_ltb_irrefl.
  - destruct (key_ltb (sort_key f best) (sort_key f d)) eqn:Hlt; [|done].
    apply key_ltb_le in Hlt.
    eapply key_le_trans; [apply Hlt | apply IH].
Qed.

Lemma greatest_max f best c d :
  d ∈ best :: c → not_before f d (greatest f best c).
Proof.
  revert best. induction c as [|x c IH]; intros best Hd; simpl.
  - apply list_elem_of_singleton in Hd as ->. apply key_ltb_irrefl.
  - pose proof (greatest_ge_best f x c) as Hx.
    pose proof (greatest_ge_best f best c) as Hb.
    unfold not_before in *.
    destruct (key_ltb (sort_key f best) (sort_key f x)) eqn:Hlt.
    + apply elem_of_cons in Hd as [->|Hd]; [|by apply IH].
      apply key_ltb_le in Hlt. eapply key_le_trans; [apply Hlt | apply Hx].
    + apply elem_of_cons in Hd as [->|[->|Hd]%elem_of_cons].
      * done.
      * eapply key_le_trans; [apply Hlt | apply Hb].
      * apply IH. by right.
Qed.

(** [find_one] returns nothing exactly when no document matches. *)
Lemma find_one_None q excl f c :
  find_one q excl f c = None ↔ ∀ d, d ∈ c → matches q d = false.
Proof.
  unfold find_one. rewrite <- filter_nil_iff.
  destruct (List.filter _ _); split; done.
Qed.

(** Otherwise it returns the projection of a latest matching document. *)
Lemma find_one_Some q excl f c r :
  find_one q excl f c = Some r →
  ∃ d, r = project_out excl d
       ∧ latest_among f (fun d => matches q d = true) c d.
Proof.
  unfold find_one. destruct (List.filter _ _) as [|b ds] eqn:Hf; [done|].
  intros [= <-]. exists (greatest f b ds). split; [done|].
  pose proof (greatest_elem f b ds) as Hin.
  rewrite <- Hf in Hin. apply filter_elem in Hin as [Hin Hm].
  split; [done|]. split; [done|].
  intros d' Hd' Hm'. apply greatest_max. rewrite <- Hf.
  by apply filter_elem.
Qed.

Lemma find_one_is_Some q excl f c d :
  d ∈ c → matches q d = true → is_Some (find_one q excl f c).
Proof.
  intros Hd Hm. destruct (find_one q excl f c) eqn:Hf; [eauto|].
  rewrite find_one_None in Hf. rewrite (Hf d Hd) in Hm. done.
Qed.

End MongoFacts.

(** ** The installation store *)

Section InstallationStoreFacts.
Import Mongo InstallationStore.
Implicit Types (d r : doc) (c : list doc) (st : store).
Implicit Types (e t : option string) (u cid : string).

Lemma scope_team_effective t (iei : option bool) :
  scope_team t iei = of_opt_str (effective_team t iei).
Proof. unfold scope_team, effective_team. by destruct (_ || _). Qed.

Lemma matches_scope cid e t d :
  matches (scope_query cid e (of_opt_str t)) d = true ↔ in_scope cid e t d.
Proof.
  unfold matches, in_scope.
  replace (map_to_list (scope_query cid e (of_opt_str t)))
    with [("client_id", CEq (VStr cid));
          ("enterprise_id", CEq (of_opt_str e));
          ("team_id", CEq (of_opt_str t))]
    by (vm_compute; reflexivity).
  cbn [forallb cond_holds fst snd].
  rewrite !andb_true_iff, field_eqb_str, !field_eqb_is. tauto.
Qed.

Lemma matches_scope_user cid e t u d :
  matches (<["user_id" := CEq (VStr u)]>
             (scope_query cid e (of_opt_str t))) d = true
  ↔ in_scope cid e t d ∧ of_user u d.
Proof.
  unfold matches, in_scope, of_user.
  replace (map_to_list (<["user_id" := CEq (VStr u)]>
                          (scope_query cid e (of_opt_str t))))
    with [("client_id", CEq (VStr cid));
          ("user_id", CEq (VStr u));
          ("enterprise_id", CEq (of_opt_str e));
          ("team_id", CEq (of_opt_str t))]
    by (vm_compute; reflexivity).
  cbn [forallb cond_holds fst snd].
  rewrite !andb_true_iff, !field_eqb_str, !field_eqb_is. tauto.
Qed.

Lemma matches_scope_user_bot cid e t u d :
  matches (<["bot_token" := CNe VNull]>
             (<["user_id" := CEq (VStr u)]>
                (scope_query cid e (of_opt_str t)))) d = true
  ↔ in_scope cid e t d ∧ of_user u d ∧ has_bot_token d.
Proof.
  unfold matches, in_scope, of_user, has_bot_token.
  replace (map_to_list (<["bot_token" := CNe VNull]>
                          (<["user_id" := CEq (VStr u)]>
                             (scope_query cid e (of_opt_str t)))))
    with [("client_id", CEq (VStr cid));
          ("user_id", CEq (VStr u));
          ("enterprise_id", CEq (of_opt_str e));
          ("bot_token", CNe VNull);
          ("team_id", CEq (of_opt_str t))]
    by (vm_compute; reflexivity).
  cbn [forallb cond_holds fst snd].
  rewrite !andb_true_iff, !field_eqb_str, !field_eqb_is, field_neb_null.
  tauto.
Qed.

Ltac not_in_list :=
  unfold hidden, bot_credential_fields;
  rewrite ?elem_of_cons, elem_of_nil; intuition discriminate.

Lemma lookup_hidden d (f : string) :
  f ∉ hidden → project_out hidden d !! f = d !! f.
Proof.
  intros Hf. unfold hidden in *. cbn.
  rewrite !lookup_delete_ne; [done| |]; intros <-; apply Hf;
    [right; left | left].
Qed.

Lemma lookup_project_out (ks : list string) d (f : string) :
  project_out ks d !! f = if bool_decide (f ∈ ks) then None else d !! f.
Proof.
  induction ks as [|k ks IH]; simpl; [done|].
  destruct (decide (k = f)) as [->|Hne].
  - rewrite lookup_delete_eq. rewrite bool_decide_eq_true_2; [done|left].
  - rewrite lookup_delete_ne by done. rewrite IH.
    destruct (decide (f ∈ ks)).
    + rewrite !bool_decide_eq_true_2; [done| by right | done].
    + rewrite !bool_decide_eq_false_2; [done| |done].
      intros [->|?]%elem_of_cons; done.
Qed.

Lemma pick_fields_Ok (fs : list string) d upd :
  pick_fields fs d = Ok upd →
  ∀ f, upd !! f = if bool_decide (f ∈ fs) then d !! f else None.
Proof.
  revert upd. induction fs as [|k fs IH]; simpl; intros upd.
  - intros [= <-] f. by rewrite lookup_empty.
  - unfold getitem. destruct (d !! k) as [v|] eqn:Hv; [|done]. simpl.
    destruct (pick_fields fs d) as [rest|] eqn:Hrest; [|done]. simpl.
    intros [= <-] f. specialize (IH rest eq_refl f).
    destruct (decide (k = f)) as [->|Hne].
    + rewrite lookup_insert_eq, bool_decide_eq_true_2; [done|left].
    + rewrite lookup_insert_ne by done. rewrite IH.
      destruct (decide (f ∈ fs)).
      * rewrite !bool_decide_eq_true_2; [done| by right | done].
      * rewrite !bool_decide_eq_false_2; [done| |done].
        intros [->|?]%elem_of_cons; done.
Qed.

Lemma pick_fields_total (fs : list string) d :
  has_fields fs d = true → ∃ upd, pick_fields fs d = Ok upd.
Proof.
  induction fs as [|k fs IH]; simpl; [by eauto|].
  rewrite andb_true_iff, bool_decide_eq_true. intros [[v Hv] Hfs].
  destruct (IH Hfs) as (upd & Hupd).
  exists (<[k := v]> upd). unfold getitem. rewrite Hv. simpl.
  by rewrite Hupd.
Qed.

Lemma lookup_update d upd (f : string) :
  update d upd !! f =
  match upd !! f with
  | Some v => Some v
  | None => d !! f
  end.
Proof. unfold update. rewrite lookup_union. by destruct (upd !! f), (d !! f). Qed.

(** *** What reachable stores contain *)

Lemma reachable_ok st : reachable st → bots_ok st ∧ installations_ok st.
Proof.
  unfold bots_ok, installations_ok.
  induction 1 as [cid|cid st _ [IHb IHi]|st _ [IHb IHi]|i st _ [IHb IHi]
                 |b st _ [IHb IHi]|e t st _ [IHb IHi]
                 |e t u st _ [IHb IHi]]; simpl.
  - split; intros d Hd; by apply elem_of_nil in Hd.
  - done.
  - done.
  - split; intros d; unfold insert_one; rewrite elem_of_app,
      list_elem_of_singleton;
      (intros [Hd| ->]; [first [by apply IHb | by apply IHi]|]);
      vm_compute; reflexivity.
  - split; [|done]. intros d; unfold insert_one; rewrite elem_of_app,
      list_elem_of_singleton;
      (intros [Hd| ->]; [first [by apply IHb | by apply IHi]|]);
      vm_compute; reflexivity.
  - split; [|done]. intros d [Hd _]%filter_elem. auto.
  - split; [|done]. intros d [Hd _]%filter_elem. auto.
Qed.

Lemma filter_all_true (p : doc → bool) c :
  (∀ d, d ∈ c → p d = true) → List.filter p c = c.
Proof.
  induction c as [|x c IH]; intros H; simpl; [done|].
  rewrite (H x) by left. f_equal. apply IH. intros d Hd. apply H. by right.
Qed.

Lemma filter_as_prop (P : doc → Prop) `{!∀ d, Decision (P d)}
    (p : doc → bool) c :
  (∀ d, p d = true ↔ P d) → List.filter p c = filter P c.
Proof.
  intros Hp. induction c as [|x c IH]; [done|]. simpl.
  destruct (decide (P x)) as [HP|HP].
  - rewrite filter_cons_True by done. apply Hp in HP. rewrite HP.
    by f_equal.
  - rewrite filter_cons_False by done.
    destruct (p x) eqn:Hx; [|done]. apply Hp in Hx. done.
Qed.

(** C10. For every store state that the store's operations can produce
    and every non-null [user_id], [delete_installation] leaves the whole
    store unchanged: its filter on the bots collection asks for a
    [user_id] that no bot document carries; and whatever the [user_id]
    argument, it never touches the installations collection. *)
Theorem delete_installation_with_user_is_noop st e t u :
  reachable st →
  delete_installation st e t (Some u) = st
  ∧ ∀ ou, slack_installations_collection (delete_installation st e t ou)
          = slack_installations_collection st.
Proof.
  intros [Hb _]%reachable_ok. split; [|done].
  destruct st as [cid insts bots ixi ixb]. unfold delete_installation.
  cbn [client_id slack_installations_collection slack_bots_collection
       installations_indexes bots_indexes delete_many fst].
  f_equal. apply filter_all_true. intros d Hd.
  apply negb_true_iff, not_true_is_false.
  rewrite matches_scope_user. intros [_ Hu]. unfold of_user in Hu.
  specialize (Hb d Hd). cbn in Hb. congruence.
Qed.

Lemma delete_installation_with_user_is_noop_witness :
  delete_installation Examples.two_users (Some "E1") (Some "T1")
    (Some "u1") = Examples.two_users
  ∧ ∀ ou, slack_installations_collection
            (delete_installation Examples.two_users (Some "E1")
               (Some "T1") ou)
          = slack_installations_collection Examples.two_users.
Proof.
  apply (delete_installation_with_user_is_noop Examples.two_users
           (Some "E1") (Some "T1") "u1").
  apply reach_save, reach_save, reach_new.
Defined.

(** C8. [delete_bot] removes from the bots collection exactly the
    documents of the store's client whose [enterprise_id] and [team_id]
    equal the arguments literally (an absent argument matching only an
    absent field), keeps the others in order, and changes nothing else
    in the store; with a non-absent [team_id] the org-wide bot documents
    stay. *)
Theorem delete_bot_is_scope_literal st e t :
  slack_bots_collection (delete_bot st e t)
    = filter (fun d => ¬ in_scope (client_id st) e t d)
        (slack_bots_collection st)
  ∧ (∀ d, d ∈ slack_bots_collection (delete_bot st e t)
          ↔ d ∈ slack_bots_collection st
            ∧ ¬ (d !! "client_id" = Some (VStr (client_id st))
                 ∧ field_is (d !! "enterprise_id") e
                 ∧ field_is (d !! "team_id") t))
  ∧ slack_installations_collection (delete_bot st e t)
      = slack_installations_collection st
  ∧ client_id (delete_bot st e t) = client_id st
  ∧ installations_indexes (delete_bot st e t) = installations_indexes st
  ∧ bots_indexes (delete_bot st e t) = bots_indexes st
  ∧ (∀ x d, t = Some x → d ∈ slack_bots_collection st →
            field_is (d !! "team_id") None →
            d ∈ slack_bots_collection (delete_bot st e t)).
Proof.
  assert (Hmem : ∀ d, d ∈ slack_bots_collection (delete_bot st e t)
                      ↔ d ∈ slack_bots_collection st
                        ∧ ¬ in_scope (client_id st) e t d).
  { intros d. unfold delete_bot, delete_many.
    cbn [slack_bots_collection client_id fst].
    rewrite filter_elem, negb_true_iff, <- not_true_iff_false.
    by rewrite matches_scope. }
  split; [|split; [exact Hmem|repeat split; try done]].
  - unfold delete_bot, delete_many.
    cbn [slack_bots_collection client_id fst]. apply filter_as_prop.
    intros d. rewrite negb_true_iff, <- not_true_iff_false.
    by rewrite matches_scope.
  - intros x d -> Hd Hteam. apply Hmem. split; [done|].
    intros (_ & _ & Ht). cbn in Ht, Hteam.
    destruct Hteam as [Hn|Hn]; rewrite Hn in Ht; done.
Qed.

(** The record [find_installation] returns is a stored document of the
    lookup's scope, up to the hidden fields and the six bot-credential
    fields. *)
Lemma find_installation_scope st e t ou iei r :
  find_installation st e t ou iei = Ok (Some r) →
  ∃ d, d ∈ slack_installations_collection st
       ∧ in_scope (client_id st) e (effective_team t iei) d
       ∧ ∀ f, f ∉ bot_credential_fields →
              r !! f = project_out hidden d !! f.
Proof.
  unfold find_installation. rewrite scope_team_effective.
  destruct ou as [u|].
  - destruct (find_one (<["user_id" := _]> _) _ _ _) as [doc|] eqn:Hdoc;
      [|done].
    apply find_one_Some in Hdoc as (d & -> & Hd & Hm & _).
    apply matches_scope_user in Hm as [Hm _].
    destruct (find_one (<["bot_token" := _]> _) _ _ _) as [b|].
    + destruct (pick_fields _ b) as [upd|] eqn:Hupd; [|done].
      intros [= <-]. exists d. split; [done|]. split; [done|].
      intros f Hf. rewrite lookup_update, (pick_fields_Ok _ _ _ Hupd).
      by rewrite bool_decide_eq_false_2.
    + intros [= <-]. eauto.
  - destruct (find_one _ _ _ _) as [doc|] eqn:Hdoc; [|done].
    apply find_one_Some in Hdoc as (d & -> & Hd & Hm & _).
    apply matches_scope in Hm. intros [= <-]. eauto.
Qed.

Lemma find_bot_scope st e t iei r :
  find_bot st e t iei = Some r →
  ∃ d, d ∈ slack_bots_collection st
       ∧ in_scope (client_id st) e (effective_team t iei) d
       ∧ r = project_out hidden d.
Proof.
  unfold find_bot. rewrite scope_team_effective.
  intros (d & -> & Hd & Hm & _)%find_one_Some.
  apply matches_scope in Hm. eauto.
Qed.

(** C6. Whatever the store holds: a record returned by [find_bot] or
    [find_installation] comes from a stored document whose [team_id] is
    absent when [is_enterprise_install] is true or the [team_id]
    argument is absent, and equals the [team_id] argument otherwise; so
    an installation saved with a [team_id], and its bot, are never what
    a lookup with [is_enterprise_install = true] returns. *)
Theorem lookup_scope_rule st e t ou iei :
  (∀ x, effective_team x (Some true) = None)
  ∧ effective_team None iei = None
  ∧ (∀ x, iei ≠ Some true → effective_team (Some x) iei = Some x)
  ∧ match find_bot st e t iei with
    | Some r =>
        ∃ d, d ∈ slack_bots_collection st
             ∧ d !! "client_id" = Some (VStr (client_id st))
             ∧ field_is (d !! "enterprise_id") e
             ∧ field_is (d !! "team_id") (effective_team t iei)
             ∧ r = project_out hidden d
    | None => True
    end
  ∧ match find_installation st e t ou iei with
    | Ok (Some r) =>
        ∃ d, d ∈ slack_installations_collection st
             ∧ d !! "client_id" = Some (VStr (client_id st))
             ∧ field_is (d !! "enterprise_id") e
             ∧ field_is (d !! "team_id") (effective_team t iei)
             ∧ ∀ f, f ∉ bot_credential_fields →
                    r !! f = project_out hidden d !! f
    | _ => True
    end
  ∧ (∀ i, i_team_id i ≠ None →
          find_bot st e t (Some true) ≠ Some (bot_asdict (to_bot i))
          ∧ find_installation st e t ou (Some true)
            ≠ Ok (Some (installation_asdict i))).
Proof.
  split.
  { intros x. unfold effective_team. cbn [truthy].
    by rewrite orb_true_r. }
  split; [done|].
  split.
  { intros x Hiei. unfold effective_team.
    rewrite bool_decide_eq_false_2 by done.
    by destruct iei as [[]|]. }
  split; [|split].
  - destruct (find_bot st e t iei) as [r|] eqn:Hr; [|done].
    apply find_bot_scope in Hr as (d & Hd & (Hc & He & Ht) & ->).
    by exists d.
  - destruct (find_installation st e t ou iei) as [[r|]|] eqn:Hr; try done.
    apply find_installation_scope in Hr as (d & Hd & (Hc & He & Ht) & Hf).
    by exists d.
  - intros i Hi. destruct (i_team_id i) as [T|] eqn:HT; [clear Hi|done].
    assert (effective_team t (Some true) = None) as Heff.
    { unfold effective_team. cbn [truthy]. by rewrite orb_true_r. }
    split.
    + intros (d & Hd & (_ & _ & Ht) & Hr)%find_bot_scope.
      apply (f_equal (fun m : doc => m !! "team_id")) in Hr.
      rewrite lookup_hidden in Hr by not_in_list.
      replace (bot_asdict (to_bot i) !! "team_id")
        with (Some (of_opt_str (i_team_id i))) in Hr
        by (vm_compute; reflexivity).
      rewrite HT in Hr. rewrite Heff in Ht. cbn in Hr, Ht.
      rewrite <- Hr in Ht. by destruct Ht.
    + intros (d & Hd & (_ & _ & Ht) & Hr)%find_installation_scope.
      assert ("team_id" ∉ bot_credential_fields) as Hnb by not_in_list.
      specialize (Hr "team_id" Hnb).
      rewrite lookup_hidden in Hr by not_in_list.
      replace (installation_asdict i !! "team_id")
        with (Some (of_opt_str (i_team_id i))) in Hr
        by (vm_compute; reflexivity).
      rewrite HT in Hr. rewrite Heff in Ht. cbn in Hr, Ht.
      rewrite <- Hr in Ht. by destruct Ht.
Qed.

Lemma create_index_elem (ix : index) (ixs : list index) :
  ix ∈ create_index ix ixs.
Proof.
  unfold create_index. case_bool_decide; [done|].
  apply elem_of_app. right. left.
Qed.

Lemma create_index_mono (ix ix' : index) (ixs : list index) :
  ix ∈ ixs → ix ∈ create_index ix' ixs.
Proof.
  intros H. unfold create_index. case_bool_decide; [done|].
  apply elem_of_app. by left.
Qed.

Lemma create_index_present (ix : index) (ixs : list index) :
  ix ∈ ixs → create_index ix ixs = ixs.
Proof. intros H. unfold create_index. by rewrite bool_decide_eq_true_2. Qed.

(** C3, as the code has it. After [init] the installations collection
    has a lookup index on (client_id, enterprise_id, team_id, user_id,
    installed_at), and the lookup index on (client_id, enterprise_id,
    team_id, installed_at) exists on the installations collection;
    calling [init] again leaves the store as it is. *)
Theorem init_declares_installation_indexes st :
  user_lookup_index ∈ installations_indexes (init st)
  ∧ scope_lookup_index ∈ installations_indexes (init st)
  ∧ init (init st) = init st.
Proof.
  split; [|split].
  - apply create_index_mono, create_index_elem.
  - apply create_index_elem.
  - unfold init at 1.
    cbn [client_id slack_installations_collection slack_bots_collection
         installations_indexes bots_indexes].
    rewrite (create_index_present user_lookup_index)
      by apply create_index_mono, create_index_elem.
    rewrite (create_index_present scope_lookup_index)
      by apply create_index_elem.
    by destruct st.
Qed.

(** C3, counterexample. On a fresh store [init] leaves the bots
    collection without any index, so without the one on (client_id,
    enterprise_id, team_id, installed_at). *)
Lemma init_leaves_bots_unindexed :
  bots_indexes (init Examples.empty_store) = []
  ∧ scope_lookup_index ∉ bots_indexes (init Examples.empty_store).
Proof. split; [reflexivity|]. apply not_elem_of_nil. Qed.

(** C2, on the code. The four wrappers [async_find_bot],
    [async_find_installation], [async_delete_bot] and
    [async_delete_installation] pass [enterprise_id] and [team_id] by
    position to methods that only take keywords: each raises
    [TypeError] on every input, also where [find_bot] returns a bot
    (here the one with token xoxb-2). *)
Theorem async_wrappers_raise_type_error :
  (∀ st e t ou iei,
      async_find_bot st e t iei = Raise TypeError
      ∧ async_find_installation st e t ou iei = Raise TypeError
      ∧ async_delete_bot st e t = Raise TypeError
      ∧ async_delete_installation st e t ou = Raise TypeError)
  ∧ (find_bot Examples.two_users (Some "E1") (Some "T1") None
       ≫= lookup "bot_token") = Some (VStr "xoxb-2")
  ∧ async_find_bot Examples.two_users (Some "E1") (Some "T1") None
    = Raise TypeError.
Proof.
  split; [|split].
  - intros st e t ou iei. repeat split; vm_compute; reflexivity.
  - vm_compute. reflexivity.
  - vm_compute. reflexivity.
Qed.

Lemma latest_among_iff (f : string) (P Q : doc → Prop) c d :
  (∀ x, P x ↔ Q x) → latest_among f P c d → latest_among f Q c d.
Proof.
  intros HPQ (Hd & HP & Hmax). split; [done|]. split; [by apply HPQ|].
  intros d' Hd' HQ. apply Hmax; [done|]. by apply HPQ.
Qed.

Lemma has_fields_lookup (fs : list string) d (f : string) :
  has_fields fs d = true → f ∈ fs → is_Some (d !! f).
Proof.
  unfold has_fields. rewrite forallb_forall. intros H Hf.
  apply list_elem_of_In, H in Hf. by apply bool_decide_eq_true in Hf.
Qed.

Lemma bot_credential_not_hidden (f : string) :
  f ∈ bot_credential_fields → f ∉ hidden.
Proof.
  unfold bot_credential_fields, hidden.
  rewrite !elem_of_cons, !elem_of_nil. intuition (subst; discriminate).
Qed.

Lemma has_fields_project d :
  has_fields bot_credential_fields d = true →
  has_fields bot_credential_fields (project_out hidden d) = true.
Proof.
  intros H. unfold has_fields. apply forallb_forall.
  intros f Hf%list_elem_of_In. apply bool_decide_eq_true.
  rewrite lookup_hidden by by apply bot_credential_not_hidden.
  by apply has_fields_lookup with bot_credential_fields.
Qed.

(** C1, as the code has it. In every store state the stores' operations
    can produce, when [find_installation] is called with a [user_id]
    and an installation of that user exists in the scope, the returned
    record is that user's latest installation, and its six
    bot-credential fields are those of the latest installation of the
    same scope and the same user that has a non-null [bot_token]; when
    that user has none, the six fields are the record's own. *)
Theorem find_installation_merges_same_user_bot st e t u iei :
  reachable st →
  (∃ d, d ∈ slack_installations_collection st
        ∧ in_scope (client_id st) e (effective_team t iei) d
        ∧ of_user u d) →
  ∃ d r,
    find_installation st e t (Some u) iei = Ok (Some r)
    ∧ latest_among "installed_at"
        (fun x => in_scope (client_id st) e (effective_team t iei) x
                  ∧ of_user u x)
        (slack_installations_collection st) d
    ∧ (∀ f, f ∉ bot_credential_fields → r !! f = project_out hidden d !! f)
    ∧ ((∃ b, latest_among "installed_at"
               (fun x => in_scope (client_id st) e (effective_team t iei) x
                         ∧ of_user u x ∧ has_bot_token x)
               (slack_installations_collection st) b
             ∧ ∀ f, f ∈ bot_credential_fields → r !! f = b !! f)
       ∨ ((∀ b, b ∈ slack_installations_collection st →
                in_scope (client_id st) e (effective_team t iei) b →
                of_user u b → ¬ has_bot_token b)
          ∧ ∀ f, f ∈ bot_credential_fields → r !! f = d !! f)).
Proof.
  intros [_ Hok]%reachable_ok (d0 & Hd0 & Hs0 & Hu0).
  unfold find_installation. rewrite scope_team_effective.
  set (q := <["user_id" := CEq (VStr u)]> (scope_query _ _ _)).
  assert (matches q d0 = true) as Hm0
    by (apply matches_scope_user; split; assumption).
  destruct (find_one_is_Some q hidden "installed_at" _ d0 Hd0 Hm0)
    as [doc Hdoc].
  rewrite Hdoc.
  apply find_one_Some in Hdoc as (d & -> & Hlatest).
  apply (latest_among_iff _ _ _ _ _ (fun x => matches_scope_user _ _ _ _ x))
    in Hlatest.
  destruct (find_one (<["bot_token" := CNe VNull]> q) hidden
              "installed_at" (slack_installations_collection st))
    as [b'|] eqn:Hb.
  - apply find_one_Some in Hb as (b & -> & Hblatest).
    apply (latest_among_iff _ _ _ _ _
             (fun x => matches_scope_user_bot _ _ _ _ x)) in Hblatest.
    pose proof Hblatest as (Hbin & _ & _).
    pose proof (has_fields_project b (Hok b Hbin)) as Hfields.
    destruct (pick_fields_total _ _ Hfields) as [upd Hupd].
    rewrite Hupd. exists d, (update (project_out hidden d) upd).
    split; [done|]. split; [done|]. split.
    + intros f Hf. rewrite lookup_update, (pick_fields_Ok _ _ _ Hupd).
      by rewrite bool_decide_eq_false_2.
    + left. exists b. split; [done|]. intros f Hf.
      rewrite lookup_update, (pick_fields_Ok _ _ _ Hupd).
      rewrite bool_decide_eq_true_2 by done.
      destruct (has_fields_lookup _ _ f Hfields Hf) as [v Hv].
      rewrite Hv. rewrite <- Hv.
      by apply lookup_hidden, bot_credential_not_hidden.
  - exists d, (project_out hidden d).
    split; [done|]. split; [done|]. split; [done|]. right. split.
    + intros b Hbin Hbs Hbu Hbt. rewrite find_one_None in Hb.
      specialize (Hb b Hbin). apply not_true_iff_false in Hb. apply Hb.
      unfold q. apply matches_scope_user_bot.
      split; [assumption | split; assumption].
    + intros f Hf. by apply lookup_hidden, bot_credential_not_hidden.
Qed.

Lemma find_installation_merges_same_user_bot_witness :
  ∃ d r,
    find_installation Examples.two_users (Some "E1") (Some "T1")
      (Some "u1") None = Ok (Some r)
    ∧ d ∈ slack_installations_collection Examples.two_users
    ∧ ∀ f, f ∉ bot_credential_fields → r !! f = project_out hidden d !! f.
Proof.
  destruct (find_installation_merges_same_user_bot Examples.two_users
              (Some "E1") (Some "T1") "u1" None)
    as (d & r & Hr & (Hd & _) & Hf & _).
  - apply reach_save, reach_save, reach_new.
  - exists (installation_doc "C1" Examples.U1).
    split; [|split]; [| |unfold of_user];
      apply (bool_decide_unpack _); vm_compute; exact I.
  - exists d, r. split; [exact Hr|]. split; [exact Hd|exact Hf].
Defined.

(** C1, counterexample. With U1 (user u1, installed at 1, no bot token)
    and U2 (user u2, installed at 2, bot token xoxb-2) saved in the same
    scope, the lookup for u1 returns u1's record with a null
    [bot_token], not xoxb-2. *)
Lemma find_installation_ignores_other_users_bot :
  match find_installation Examples.two_users (Some "E1") (Some "T1")
          (Some "u1") None with
  | Ok (Some r) =>
      r !! "user_id" = Some (VStr "u1")
      ∧ r !! "bot_token" = Some VNull
      ∧ r !! "bot_token" ≠ Some (VStr "xoxb-2")
  | _ => False
  end.
Proof. vm_compute. repeat split. discriminate. Qed.

(** *** Saved installations *)

Lemma save_all_spec (l : list Installation) st :
  slack_installations_collection (save_all l st)
    = (slack_installations_collection st
         ++ (installation_doc (client_id st) <$> l))%list
  ∧ client_id (save_all l st) = client_id st.
Proof.
  revert st. induction l as [|i l IH]; intros st; simpl.
  - by rewrite app_nil_r.
  - destruct (IH (save i st)) as [-> ->]. split; [|done].
    unfold save, save_bot, insert_one, installation_doc.
    cbn [slack_installations_collection client_id].
    by rewrite <- app_assoc.
Qed.

Lemma installation_doc_lookups cid (i : Installation) :
  installation_doc cid i !! "client_id" = Some (VStr cid)
  ∧ installation_doc cid i !! "enterprise_id"
    = Some (of_opt_str (i_enterprise_id i))
  ∧ installation_doc cid i !! "team_id" = Some (of_opt_str (i_team_id i))
  ∧ installation_doc cid i !! "installed_at"
    = Some (VNum (i_installed_at i)).
Proof. repeat split; vm_compute; reflexivity. Qed.

Lemma field_is_of_opt_str (x o : option string) :
  field_is (Some (of_opt_str x)) o ↔ x = o.
Proof.
  destruct x as [x|], o as [o|]; simpl; split; try done.
  - by intros [= ->].
  - by intros [= ->].
  - by intros [|].
  - intros _. by right.
Qed.

Lemma in_scope_installation_doc cid e t (i : Installation) :
  in_scope cid e t (installation_doc cid i)
  ↔ i_enterprise_id i = e ∧ i_team_id i = t.
Proof.
  unfold in_scope.
  destruct (installation_doc_lookups cid i) as (-> & -> & -> & _).
  rewrite !field_is_of_opt_str. tauto.
Qed.

Lemma project_installation_doc cid (i : Installation) :
  project_out hidden (installation_doc cid i) = installation_asdict i.
Proof.
  apply map_eq. intros k. rewrite lookup_project_out.
  unfold installation_doc. case_bool_decide as Hk.
  - unfold hidden in Hk.
    apply elem_of_cons in Hk as [->|[->|Hk]%elem_of_cons].
    + vm_compute. reflexivity.
    + vm_compute. reflexivity.
    + by apply elem_of_nil in Hk.
  - apply lookup_union_l. apply lookup_singleton_ne.
    intros <-. apply Hk. unfold hidden. right. left.
Qed.

Lemma last_filter_max {A} (R : relation A) (P : A → Prop)
    `{!∀ x, Decision (P x)} (l : list A) (x : A) :
  StronglySorted R l → last (filter P l) = Some x →
  x ∈ l ∧ P x ∧ ∀ y, y ∈ l → P y → y = x ∨ R y x.
Proof.
  induction 1 as [|a l Hl IH Ha]; [done|].
  destruct (decide (P a)) as [HP|HP].
  - rewrite filter_cons_True by done.
    destruct (filter P l) as [|b fl] eqn:Hfl.
    + intros [= <-]. split; [left|]. split; [done|].
      intros y [->|Hy]%elem_of_cons Hy'; [by left|].
      exfalso. by eapply (filter_nil_not_elem_of P l y).
    + rewrite last_cons_cons. intros Hlast.
      destruct (IH Hlast) as (Hx & HPx & Hmax).
      split; [by right|]. split; [done|].
      intros y [->|Hy]%elem_of_cons Hy'; [|by auto].
      right. rewrite Forall_forall in Ha. by apply Ha.
  - rewrite filter_cons_False by done. intros Hlast.
    destruct (IH Hlast) as (Hx & HPx & Hmax).
    split; [by right|]. split; [done|].
    intros y [->|Hy]%elem_of_cons Hy'; [done|by auto].
Qed.

(** C7. Take installations with strictly increasing [installed_at] and
    save them into a fresh store in any order of insertion:
    [find_installation] without a [user_id] returns the one of them, in
    the scope of the lookup, with the greatest [installed_at] (the last
    of the increasing sequence that is in scope), and nothing when none
    is in scope. *)
Theorem find_installation_returns_latest_saved cid
    (l l' : list Installation) e t iei :
  StronglySorted (fun a b => i_installed_at a < i_installed_at b) l →
  l' ≡ₚ l →
  find_installation (save_all l' (new_store cid)) e t None iei
  = Ok (installation_asdict
          <$> last (filter (fun i => i_enterprise_id i = e
                                     ∧ i_team_id i = effective_team t iei)
                      l)).
Proof.
  intros Hsorted Hperm.
  set (P := fun i => i_enterprise_id i = e
                     ∧ i_team_id i = effective_team t iei).
  unfold find_installation. rewrite scope_team_effective.
  destruct (save_all_spec l' (new_store cid)) as [-> ->].
  cbn [new_store slack_installations_collection client_id app].
  set (q := scope_query cid e (of_opt_str (effective_team t iei))).
  assert (Hmatch : ∀ i, matches q (installation_doc cid i) = true ↔ P i).
  { intros i. unfold q. rewrite matches_scope.
    apply in_scope_installation_doc. }
  destruct (last (filter P l)) as [i|] eqn:Hlast.
  - destruct (last_filter_max _ P l i Hsorted Hlast) as (Hi & HPi & Hmax).
    assert (installation_doc cid i ∈ installation_doc cid <$> l') as Hin.
    { apply list_elem_of_fmap_2. by rewrite Hperm. }
    destruct (find_one_is_Some q hidden "installed_at" _ _ Hin
                (proj2 (Hmatch i) HPi)) as [r Hr].
    rewrite Hr. cbn. do 2 f_equal.
    apply find_one_Some in Hr as (d & -> & Hd & Hm & Hlatest).
    apply list_elem_of_fmap in Hd as (j & -> & Hj).
    rewrite Hperm in Hj. apply Hmatch in Hm.
    destruct (Hmax j Hj Hm) as [->|Hlt];
      [apply project_installation_doc|].
    exfalso. specialize (Hlatest _ Hin (proj2 (Hmatch i) HPi)).
    unfold not_before, sort_key in Hlatest.
    destruct (installation_doc_lookups cid i) as (_ & _ & _ & Hki).
    destruct (installation_doc_lookups cid j) as (_ & _ & _ & Hkj).
    rewrite Hki, Hkj in Hlatest. cbn in Hlatest.
    apply bool_decide_eq_false in Hlatest. lia.
  - apply last_None in Hlast.
    assert (find_one q hidden "installed_at" (installation_doc cid <$> l')
            = None) as ->; [|done].
    apply find_one_None. intros d (j & -> & Hj)%list_elem_of_fmap.
    apply not_true_iff_false. rewrite Hmatch. intros HPj.
    rewrite Hperm in Hj. by eapply (filter_nil_not_elem_of P l j).
Qed.

Lemma find_installation_returns_latest_saved_witness :
  find_installation
    (save_all [Examples.U2; Examples.ORG; Examples.U1]
       (new_store "C1")) (Some "E1") (Some "T1") None None
  = Ok (installation_asdict
          <$> last (filter (fun i => i_enterprise_id i = Some "E1"
                                     ∧ i_team_id i
                                       = effective_team (Some "T1") None)
                      [Examples.U1; Examples.U2; Examples.ORG])).
Proof.
  apply (find_installation_returns_latest_saved "C1"
           [Examples.U1; Examples.U2; Examples.ORG]
           [Examples.U2; Examples.ORG; Examples.U1]).
  - apply (bool_decide_unpack _). vm_compute. exact I.
  - apply (bool_decide_unpack _). vm_compute. exact I.
Defined.

(** X22. The two wrappers that pass their argument the way the method
    takes it do delegate: [async_save] and [async_save_bot] never raise
    and leave the store as [save] and [save_bot] do. *)
Lemma async_save_delegates (i : Installation) (b : Bot) st :
  async_save i st = Ok (save i st) ∧ async_save_bot b st = Ok (save_bot b st).
Proof.
  unfold async_save, async_save_bot.
  replace (check_call save_sig 1 []) with (Ok ()) by (vm_compute; reflexivity).
  replace (check_call save_bot_sig 1 []) with (Ok ())
    by (vm_compute; reflexivity).
  by split.
Qed.

End InstallationStoreFacts.

(** ** The state store *)

Section StateStoreFacts.
Import Mongo StateStore.
Implicit Types (d : doc) (c : list doc) (st : store) (s u : string).
Implicit Types (now : Z).

Lemma matches_consume s now d :
  matches (consume_query s now) d = true ↔ live s now d.
Proof.
  unfold matches, live, expires_after.
  replace (map_to_list (consume_query s now))
    with [("state", CEq (VStr s)); ("expire_at", CGt now)]
    by (vm_compute; reflexivity).
  cbn [forallb cond_holds fst snd].
  rewrite !andb_true_iff, field_eqb_str.
  destruct (d !! "expire_at") as [[]|];
    rewrite ?bool_decide_eq_true; intuition discriminate.
Qed.

Lemma consume_result s now st :
  (consume s now st).2 = true
  ↔ ∃ d, d ∈ slack_oauth_states_collection st ∧ live s now d.
Proof.
  unfold consume, delete_many. cbn [fst snd].
  rewrite bool_decide_eq_true. split.
  - destruct (List.filter _ _) as [|d ds] eqn:Hf; cbn; [lia|]. intros _.
    exists d. rewrite <- matches_consume. apply filter_elem.
    rewrite Hf. left.
  - intros (d & Hd & Hlive). apply matches_consume in Hlive.
    assert (d ∈ List.filter (matches (consume_query s now))
                  (slack_oauth_states_collection st)) as Hin
      by (apply filter_elem; split; assumption).
    clear Hlive.
    destruct (List.filter _ _); [by apply elem_of_nil in Hin|]. cbn. lia.
Qed.

Lemma consume_result_false s now st :
  (consume s now st).2 = false
  ↔ ∀ d, d ∈ slack_oauth_states_collection st → ¬ live s now d.
Proof.
  rewrite <- not_true_iff_false, consume_result. split.
  - intros H d Hd Hl. apply H. eauto.
  - intros H (d & Hd & Hl). by apply (H d).
Qed.

Lemma consume_elem s now st d :
  d ∈ slack_oauth_states_collection (consume s now st).1
  ↔ d ∈ slack_oauth_states_collection st ∧ ¬ live s now d.
Proof.
  unfold consume, delete_many. cbn [fst slack_oauth_states_collection].
  rewrite filter_elem, negb_true_iff, <- not_true_iff_false.
  by rewrite matches_consume.
Qed.

(** C4. [consume s] at time [now] deletes exactly the records whose
    [state] is [s] and whose [expire_at] is greater than [now], and
    returns true iff there was such a record; so it returns false for
    a token that has no record, for one whose records have all expired
    even though they are still stored, and for one consumed before. *)
Theorem consume_deletes_live_records st s now :
  slack_oauth_states_collection (consume s now st).1
    = filter (fun d => ¬ live s now d) (slack_oauth_states_collection st)
  ∧ expiration_seconds (consume s now st).1 = expiration_seconds st
  ∧ ((consume s now st).2 = true
     ↔ ∃ d x, d ∈ slack_oauth_states_collection st
              ∧ d !! "state" = Some (VStr s)
              ∧ d !! "expire_at" = Some (VNum x) ∧ now < x)
  ∧ ((∀ d, d ∈ slack_oauth_states_collection st →
           d !! "state" ≠ Some (VStr s)) →
     (consume s now st).2 = false)
  ∧ ((∀ d x, d ∈ slack_oauth_states_collection st →
             d !! "state" = Some (VStr s) →
             d !! "expire_at" = Some (VNum x) → (x ≤ now)%Z) →
     (consume s now st).2 = false)
  ∧ (∀ now', (now ≤ now')%Z →
             (consume s now' (consume s now st).1).2 = false).
Proof.
  split; [|split; [done|split; [|split; [|split]]]].
  - unfold consume, delete_many. cbn [fst slack_oauth_states_collection].
    apply filter_as_prop. intros d.
    rewrite negb_true_iff, <- not_true_iff_false.
    by rewrite matches_consume.
  - rewrite consume_result. unfold live, expires_after. split.
    + intros (d & Hd & Hs & Hx).
      destruct (d !! "expire_at") as [[|?|x|?|?]|] eqn:He; try done.
      by exists d, x.
    + intros (d & x & Hd & Hs & He & Hx). exists d. by rewrite He.
  - intros H. apply consume_result_false. intros d Hd [Hs _].
    by apply (H d).
  - intros H. apply consume_result_false. intros d Hd [Hs Hx].
    unfold expires_after in Hx.
    destruct (d !! "expire_at") as [[|?|x|?|?]|] eqn:He; try done.
    specialize (H d x Hd Hs He). lia.
  - intros now' Hle. apply consume_result_false.
    intros d [Hd Hnl]%consume_elem [Hs Hx]. apply Hnl. split; [done|].
    unfold expires_after in *.
    destruct (d !! "expire_at") as [[|?|x|?|?]|]; try done. lia.
Qed.

(** *** Runs of the store *)

Lemma records_of_app s c1 c2 :
  records_of s (c1 ++ c2) = (records_of s c1 ++ records_of s c2)%list.
Proof. apply List.filter_app. Qed.

Lemma records_of_elem s c d :
  d ∈ records_of s c ↔ d ∈ c ∧ d !! "state" = Some (VStr s).
Proof. unfold records_of. by rewrite filter_elem, bool_decide_eq_true. Qed.

Lemma records_of_issue s u now st :
  length (records_of s (slack_oauth_states_collection (issue u now st).1))
  = (length (records_of s (slack_oauth_states_collection st))
     + issues_of s [Issue u now])%nat.
Proof.
  unfold issue, insert_one, issues_of.
  cbn [fst slack_oauth_states_collection List.filter].
  rewrite records_of_app, length_app. f_equal.
  unfold records_of. cbn [List.filter].
  replace ((list_to_map
              [("state", VStr u);
               ("expire_at", VNum (now + expiration_seconds st))] : doc)
             !! "state")
    with (Some (VStr u)) by (vm_compute; reflexivity).
  destruct (decide (u = s)) as [->|Hne].
  - by rewrite !bool_decide_eq_true_2.
  - rewrite !bool_decide_eq_false_2; [done|done|]. by intros [= ->].
Qed.

Lemma records_of_consume s s' now st :
  (length (records_of s
             (slack_oauth_states_collection (consume s' now st).1))
   ≤ length (records_of s (slack_oauth_states_collection st)))%nat.
Proof.
  unfold consume, delete_many. cbn [fst slack_oauth_states_collection].
  generalize (slack_oauth_states_collection st). intros c.
  induction c as [|d c IH]; cbn [List.filter records_of]; [done|].
  unfold records_of in *.
  destruct (negb _); cbn [List.filter];
    destruct (bool_decide _); cbn [length]; lia.
Qed.

Lemma issues_of_app s (ops1 ops2 : list op) :
  issues_of s (ops1 ++ ops2) = (issues_of s ops1 + issues_of s ops2)%nat.
Proof. unfold issues_of. by rewrite List.filter_app, length_app. Qed.

(** A run leaves at most as many records of a token as it found plus
    the number of times it issued the token. *)
Lemma records_of_run s (ops : list op) st :
  (length (records_of s (slack_oauth_states_collection (run ops st)))
   ≤ length (records_of s (slack_oauth_states_collection st))
     + issues_of s ops)%nat.
Proof.
  revert st. induction ops as [|o ops IH]; intros st.
  - cbn. lia.
  - change (run (o :: ops) st) with (run ops (step st o)).
    change (o :: ops) with ([o] ++ ops)%list. rewrite issues_of_app.
    specialize (IH (step st o)). destruct o as [u now|s' now].
    + cbn [step] in *. rewrite records_of_issue in IH. lia.
    + cbn [step] in *. pose proof (records_of_consume s s' now st).
      change (issues_of s [Consume s' now]) with 0%nat. lia.
Qed.

(** C5. Start from a store without a record of token [s] and let the
    token generator produce [s] at most once in the whole run. Once a
    [consume s] has returned true, every later [consume s] returns
    false, whatever happens in between and whatever the clock reads at
    either call. *)
Theorem consume_succeeds_at_most_once st0 (pre mid : list op) s t1 t2 :
  records_of s (slack_oauth_states_collection st0) = [] →
  (issues_of s (pre ++ mid) ≤ 1)%nat →
  (consume s t1 (run pre st0)).2 = true →
  (consume s t2 (run mid (consume s t1 (run pre st0)).1)).2 = false.
Proof.
  intros Hinit Hissued Htrue. rewrite issues_of_app in Hissued.
  pose proof (records_of_run s pre st0) as Hpre.
  rewrite Hinit in Hpre. cbn [length] in Hpre.
  apply consume_result in Htrue as (d & Hd & Hlive).
  assert (d ∈ records_of s (slack_oauth_states_collection (run pre st0)))
    as Hrec by (apply records_of_elem; split; [done|apply Hlive]).
  destruct (records_of s (slack_oauth_states_collection (run pre st0)))
    as [|d' [|d'' rest]] eqn:Hrecs;
    [by apply elem_of_nil in Hrec| |cbn [length] in Hpre; lia].
  apply list_elem_of_singleton in Hrec as <-.
  cbn [length] in Hpre.
  assert (records_of s (slack_oauth_states_collection
                          (consume s t1 (run pre st0)).1) = []) as Hgone.
  { apply filter_nil_iff. intros x [Hx Hnl]%consume_elem.
    apply bool_decide_eq_false. intros Hs.
    assert (x ∈ [d]) as ->%list_elem_of_singleton
      by (rewrite <- Hrecs; apply records_of_elem; by split).
    done. }
  pose proof (records_of_run s mid (consume s t1 (run pre st0)).1) as Hmid.
  rewrite Hgone in Hmid. cbn [length] in Hmid.
  apply consume_result_false. intros x Hx [Hs _].
  assert (x ∈ records_of s
                (slack_oauth_states_collection
                   (run mid (consume s t1 (run pre st0)).1))) as Hin
    by (apply records_of_elem; by split).
  assert (records_of s
            (slack_oauth_states_collection
               (run mid (consume s t1 (run pre st0)).1)) = []) as Hnone
    by (apply length_zero_iff_nil; lia).
  rewrite Hnone in Hin. by apply elem_of_nil in Hin.
Qed.

Lemma consume_succeeds_at_most_once_witness :
  (consume "tok" 20
     (run [Consume "other" 10; Issue "tok2" 11]
        (consume "tok" 5 (run [Issue "tok" 0] Examples.empty_states)).1)).2
  = false.
Proof.
  apply (consume_succeeds_at_most_once Examples.empty_states
           [Issue "tok" 0] [Consume "other" 10; Issue "tok2" 11]
           "tok" 5 20).
  - reflexivity.
  - vm_compute. lia.
  - vm_compute. reflexivity.
Defined.

(** C9, as the code has it. Constructing and initializing the state
    store with a non-positive [expiration_seconds] does not fail: both
    succeed and keep the value, and a token issued afterwards is
    expired from the start ([consume] at or after the time of issue
    returns false). *)
Theorem nonpositive_expiration_is_accepted (coll : list doc)
    (ixs : list index) (exp : Z) u now now' :
  (exp ≤ 0)%Z → (now ≤ now')%Z → records_of u coll = [] →
  ∃ st st',
    __init__ coll ixs exp = Ok st
    ∧ init st = Ok st'
    ∧ expiration_seconds st' = exp
    ∧ (issue u now st').2 = u
    ∧ (consume u now' (issue u now st').1).2 = false.
Proof.
  intros Hexp Hnow Hfresh. eexists _, _.
  split; [reflexivity|]. split; [reflexivity|]. split; [reflexivity|].
  split; [reflexivity|].
  apply consume_result_false. intros d Hd [Hs Hx].
  unfold issue, insert_one in Hd.
  cbn [fst slack_oauth_states_collection init __init__
       expiration_seconds] in Hd.
  apply elem_of_app in Hd as [Hd| ->%list_elem_of_singleton].
  - assert (d ∈ records_of u coll) as Hin
      by (apply records_of_elem; by split).
    rewrite Hfresh in Hin. by apply elem_of_nil in Hin.
  - unfold expires_after in Hx.
    replace ((list_to_map
                [("state", VStr u); ("expire_at", VNum (now + exp))] : doc)
               !! "expire_at")
      with (Some (VNum (now + exp))) in Hx by (vm_compute; reflexivity).
    lia.
Qed.

Lemma nonpositive_expiration_is_accepted_witness :
  ∃ st st',
    __init__ [] [] (-60) = Ok st
    ∧ init st = Ok st'
    ∧ expiration_seconds st' = -60
    ∧ (issue "tok" 100 st').2 = "tok"
    ∧ (consume "tok" 100 (issue "tok" 100 st').1).2 = false.
Proof.
  apply (nonpositive_expiration_is_accepted [] [] (-60) "tok" 100 100).
  - lia.
  - lia.
  - reflexivity.
Defined.

(** C9, counterexample. With [expiration_seconds = -60] neither the
    constructor nor [init] raises. *)
Lemma negative_expiration_does_not_fail :
  ∃ st, (__init__ [] [] (-60) ≫= init) = Ok st
        ∧ expiration_seconds st = -60
        ∧ ∀ e, __init__ [] [] (-60) ≠ Raise e.
Proof. eexists. split; [reflexivity|]. split; [reflexivity|]. done. Qed.

(** X23. Both [async_] entry points of the state store return what the
    blocking ones return, on every input, and never raise. *)
Lemma async_state_store_delegates s u now st :
  async_issue u now st = Ok (issue u now st)
  ∧ async_consume s now st = Ok (consume s now st).
Proof.
  split; [reflexivity|]. unfold async_consume.
  replace (check_call consume_sig 1 []) with (Ok ())
    by (vm_compute; reflexivity).
  reflexivity.
Qed.

End StateStoreFacts.

(** * Further properties *)

(** ** Lookups over a changed collection *)

Section FindOneFacts.
Import Mongo.
Implicit Types (d : doc) (c : list doc) (q : query) (f : string).

Lemma filter_filter_frame (p r : doc → bool) c :
  (∀ d, d ∈ c → r d = true → p d = true) →
  List.filter r (List.filter p c) = List.filter r c.
Proof.
  induction c as [|x c IH]; intros H; [done|]. cbn [List.filter].
  assert (List.filter r (List.filter p c) = List.filter r c) as IH'.
  { apply IH. intros d Hd. apply H. by right. }
  destruct (r x) eqn:Hr.
  - rewrite (H x (list_elem_of_here _ _) Hr). cbn [List.filter].
    rewrite Hr. by f_equal.
  - destruct (p x); [cbn [List.filter]; by rewrite Hr|done].
Qed.

Lemma filter_comm (p r : doc → bool) c :
  List.filter r (List.filter p c) = List.filter p (List.filter r c).
Proof.
  induction c as [|x c IH]; [done|]. cbn [List.filter].
  destruct (p x) eqn:Hp, (r x) eqn:Hr; cbn [List.filter];
    rewrite ?Hp, ?Hr, IH; done.
Qed.


Lemma find_one_filter_none q excl f (p : doc → bool) c :
  (∀ d, d ∈ c → matches q d = true → p d = false) →
  find_one q excl f (List.filter p c) = None.
Proof.
  intros H. apply find_one_None. intros d [Hd Hp]%filter_elem.
  apply not_true_iff_false. intros Hm. rewrite (H d Hd Hm) in Hp. done.
Qed.

Lemma find_one_snoc_no_match q excl f c d :
  matches q d = false → find_one q excl f (c ++ [d]) = find_one q excl f c.
Proof.
  intros H. unfold find_one. rewrite List.filter_app. cbn [List.filter].
  rewrite H. by rewrite app_nil_r.
Qed.



End FindOneFacts.

(** ** The installation store: lookups *)

Section InstallationLookups.
Import Mongo InstallationStore.
Implicit Types (d r : doc) (c : list doc) (st : store).
Implicit Types (e t ou : option string) (u cid : string).
Implicit Types (iei : option bool).





(** X3. A lookup for a user who has no installation in the scope returns
    nothing, in every store state: the absence is a result, not an
    error, whatever else the collection holds. *)
Theorem find_installation_unknown_user st e t u iei :
  (∀ d, d ∈ slack_installations_collection st →
        in_scope (client_id st) e (effective_team t iei) d →
        ¬ of_user u d) →
  find_installation st e t (Some u) iei = Ok None.
Proof.
  intros H. unfold find_installation. rewrite scope_team_effective.
  assert (find_one (<["user_id" := CEq (VStr u)]>
                      (scope_query (client_id st) e
                         (of_opt_str (effective_team t iei))))
            hidden "installed_at" (slack_installations_collection st)
          = None) as ->; [|done].
  apply find_one_None. intros d Hd. apply not_true_iff_false.
  rewrite matches_scope_user. intros [Hs Hu]. by apply (H d).
Qed.

Lemma find_installation_unknown_user_witness :
  find_installation Examples.two_users (Some "E1") (Some "T1")
    (Some "nobody") None = Ok None.
Proof.
  apply (find_installation_unknown_user Examples.two_users (Some "E1")
           (Some "T1") "nobody" None).
  intros d Hd _ Hu. revert Hd. unfold of_user in Hu.
  change (slack_installations_collection Examples.two_users)
    with [installation_doc "C1" Examples.U1;
          installation_doc "C1" Examples.U2].
  rewrite !elem_of_cons, elem_of_nil.
  intros [->|[->|[]]]; vm_compute in Hu; discriminate.
Defined.

Lemma find_installation_Raise_inv st e t ou iei x :
  find_installation st e t ou iei = Raise x →
  x = KeyError
  ∧ ∃ u d, ou = Some u
           ∧ d ∈ slack_installations_collection st
           ∧ in_scope (client_id st) e (effective_team t iei) d
           ∧ of_user u d ∧ has_bot_token d
           ∧ has_fields bot_credential_fields d = false.
Proof.
  unfold find_installation. rewrite scope_team_effective.
  destruct ou as [u|]; [|by destruct (find_one _ _ _ _)].
  destruct (find_one (<["user_id" := _]> _) _ _ _) as [doc|]; [|done].
  destruct (find_one (<["bot_token" := _]> _) _ _ _) as [b'|] eqn:Hb;
    [|done].
  apply find_one_Some in Hb as (b & -> & Hbin & Hm & _).
  apply matches_scope_user_bot in Hm as (Hs & Hu & Ht).
  destruct (pick_fields _ _) as [upd|x'] eqn:Hupd; [done|].
  intros [= ->]. split.
  - clear -Hupd. revert Hupd. generalize bot_credential_fields.
    intros fs. induction fs as [|k fs IH]; [done|]. cbn [pick_fields].
    unfold getitem. destruct (_ !! k); [|by intros [= ->]].
    cbn. destruct (pick_fields fs _); [done|]. cbn. intros [= ->]. auto.
  - exists u, b. repeat (split; [assumption|]).
    destruct (has_fields bot_credential_fields b) eqn:Hf; [|done].
    apply has_fields_project, pick_fields_total in Hf as [upd Hupd'].
    rewrite Hupd' in Hupd. done.
Qed.




(** X5. In every store state the stores' operations can produce,
    [find_installation] returns a result for all arguments: it does not
    raise. *)
Theorem find_installation_total_on_reachable st e t ou iei :
  reachable st → ∃ o, find_installation st e t ou iei = Ok o.
Proof.
  intros [_ Hok]%reachable_ok.
  destruct (find_installation st e t ou iei) as [o|x] eqn:Hr; [eauto|].
  apply find_installation_Raise_inv in Hr
    as (_ & u & d & _ & Hd & _ & _ & _ & Hf).
  rewrite (Hok d Hd) in Hf. done.
Qed.

Lemma find_installation_total_on_reachable_witness :
  ∃ o, find_installation Examples.two_users (Some "E1") None (Some "u2")
         (Some true) = Ok o.
Proof.
  apply (find_installation_total_on_reachable Examples.two_users).
  apply reach_save, reach_save, reach_new.
Defined.

(** X6. What the finders return never shows the [client_id] (nor an
    [_id]): the projection hides them and the merge of bot credentials
    does not bring them back. *)
Theorem lookups_hide_client_id st e t ou iei :
  match find_bot st e t iei with
  | Some r => r !! "client_id" = None ∧ r !! "_id" = None
  | None => True
  end
  ∧ match find_installation st e t ou iei with
    | Ok (Some r) => r !! "client_id" = None ∧ r !! "_id" = None
    | _ => True
    end.
Proof.
  assert (Hh : ∀ d, project_out hidden d !! "client_id" = None
                    ∧ project_out hidden d !! "_id" = None).
  { intros d. rewrite !lookup_project_out.
    rewrite !bool_decide_eq_true_2; [done| |]; unfold hidden.
    - left.
    - right. left. }
  split.
  - destruct (find_bot st e t iei) as [r|] eqn:Hr; [|done].
    apply find_bot_scope in Hr as (d & _ & _ & ->). apply Hh.
  - destruct (find_installation st e t ou iei) as [[r|]|] eqn:Hr; try done.
    apply find_installation_scope in Hr as (d & _ & _ & Hf).
    rewrite !Hf; [apply Hh| |]; unfold bot_credential_fields;
      rewrite !elem_of_cons, elem_of_nil; intuition discriminate.
Qed.

End InstallationLookups.

(** ** The installation store: saving and deleting *)

Section InstallationUpdates.
Import Mongo InstallationStore.
Implicit Types (d r : doc) (c : list doc) (st : store).
Implicit Types (e t ou : option string) (u cid : string).
Implicit Types (iei : option bool) (i : Installation) (b : Bot).

Lemma effective_team_plain t iei :
  truthy iei = false → effective_team t iei = t.
Proof.
  intros H. unfold effective_team. rewrite H, orb_false_r.
  case_bool_decide; by subst.
Qed.

Lemma bot_doc_lookups cid b :
  (bot_asdict b ∪ {["client_id" := VStr cid]} : doc) !! "client_id"
    = Some (VStr cid)
  ∧ (bot_asdict b ∪ {["client_id" := VStr cid]} : doc) !! "enterprise_id"
    = Some (of_opt_str (b_enterprise_id b))
  ∧ (bot_asdict b ∪ {["client_id" := VStr cid]} : doc) !! "team_id"
    = Some (of_opt_str (b_team_id b))
  ∧ (bot_asdict b ∪ {["client_id" := VStr cid]} : doc) !! "installed_at"
    = Some (VNum (b_installed_at b)).
Proof. repeat split; vm_compute; reflexivity. Qed.

Lemma in_scope_bot_doc cid cid' e t b :
  in_scope cid e t (bot_asdict b ∪ {["client_id" := VStr cid']})
  ↔ cid' = cid ∧ b_enterprise_id b = e ∧ b_team_id b = t.
Proof.
  unfold in_scope.
  destruct (bot_doc_lookups cid' b) as (-> & -> & -> & _).
  rewrite !field_is_of_opt_str. split.
  - by intros ([= ->] & -> & ->).
  - by intros (-> & -> & ->).
Qed.

Lemma in_scope_installation_doc' cid cid' e t i :
  in_scope cid e t (installation_doc cid' i)
  ↔ cid' = cid ∧ i_enterprise_id i = e ∧ i_team_id i = t.
Proof.
  unfold in_scope.
  destruct (installation_doc_lookups cid' i) as (-> & -> & -> & _).
  rewrite !field_is_of_opt_str. split.
  - by intros ([= ->] & -> & ->).
  - by intros (-> & -> & ->).
Qed.












End InstallationUpdates.

(** ** The installation store: clients, deletions, history *)

Section InstallationFrames.
Import Mongo InstallationStore.
Implicit Types (d r : doc) (c : list doc) (st : store).
Implicit Types (e t ou : option string) (u cid : string).
Implicit Types (iei : option bool) (i : Installation) (b : Bot).



Lemma no_match_other_client cid cid' e t i :
  cid' ≠ cid →
  matches (scope_query cid' e (of_opt_str t)) (installation_doc cid i)
  = false.
Proof.
  intros Hne. apply not_true_iff_false. rewrite matches_scope.
  intros (Hc & _)%in_scope_installation_doc'. done.
Qed.

(** X10. Clients do not see each other's data: what a store object of
    another client finds, installations and bots alike, is the same
    before and after a [save] by this client. *)
Theorem save_is_invisible_to_other_clients st i cid' e t ou iei :
  cid' ≠ client_id st →
  find_installation (with_client cid' (save i st)) e t ou iei
    = find_installation (with_client cid' st) e t ou iei
  ∧ find_bot (with_client cid' (save i st)) e t iei
    = find_bot (with_client cid' st) e t iei.
Proof.
  intros Hne. split.
  - unfold find_installation, with_client, save, save_bot, insert_one.
    cbn [slack_installations_collection client_id].
    rewrite scope_team_effective.
    fold (installation_doc (client_id st) i).
    destruct ou as [u|].
    + rewrite !find_one_snoc_no_match; [done| |].
      * apply not_true_iff_false. rewrite matches_scope_user_bot.
        intros ((Hc & _)%in_scope_installation_doc' & _). done.
      * apply not_true_iff_false. rewrite matches_scope_user.
        intros ((Hc & _)%in_scope_installation_doc' & _). done.
    + rewrite find_one_snoc_no_match; [done|].
      by apply no_match_other_client.
  - unfold find_bot, with_client, save, save_bot, insert_one.
    cbn [slack_bots_collection client_id].
    rewrite scope_team_effective.
    rewrite find_one_snoc_no_match; [done|].
    apply not_true_iff_false. rewrite matches_scope.
    intros (Hc & _)%in_scope_bot_doc. done.
Qed.

Lemma save_is_invisible_to_other_clients_witness :
  find_installation (with_client "C2" (save Examples.ORG Examples.two_users))
    (Some "E1") None None None
    = find_installation (with_client "C2" Examples.two_users)
        (Some "E1") None None None
  ∧ find_bot (with_client "C2" (save Examples.ORG Examples.two_users))
      (Some "E1") None None
    = find_bot (with_client "C2" Examples.two_users) (Some "E1") None None.
Proof.
  apply (save_is_invisible_to_other_clients Examples.two_users Examples.ORG
           "C2" (Some "E1") None None None).
  vm_compute. discriminate.
Defined.

Lemma delete_bot_then_find_bot_aux st e t iei :
  find_bot (delete_bot st e (effective_team t iei)) e t iei = None.
Proof.
  unfold find_bot, delete_bot, delete_many.
  cbn [slack_bots_collection client_id fst].
  rewrite scope_team_effective.
  apply find_one_filter_none. intros d _ Hm. by rewrite Hm.
Qed.

(** X11. After [delete_bot] of the scope a lookup resolves to,
    [find_bot] finds nothing there: with a plain lookup that is the
    scope [(e, t)] itself, with an enterprise lookup the org-wide scope
    [(e, None)]. *)
Theorem delete_bot_then_find_bot st e t iei :
  find_bot (delete_bot st e (effective_team t iei)) e t iei = None.
Proof. apply delete_bot_then_find_bot_aux. Qed.



(** X13. What [delete_installation] does without a [user_id]: it acts on
    the store exactly as [delete_bot], so the bot of the scope is no
    longer found, while every installation lookup, for any arguments,
    returns what it returned before. *)
Theorem delete_installation_deletes_bots st e t :
  delete_installation st e t None = delete_bot st e t
  ∧ find_bot (delete_installation st e t None) e t None = None
  ∧ ∀ ou e' t' ou' iei,
      find_installation (delete_installation st e t ou) e' t' ou' iei
      = find_installation st e' t' ou' iei.
Proof.
  split; [done|]. split; [|done].
  change (delete_installation st e t None) with (delete_bot st e t).
  rewrite <- (effective_team_plain t None eq_refl) at 1.
  apply delete_bot_then_find_bot_aux.
Qed.

End InstallationFrames.

Section InstallationHistory.
Import Mongo InstallationStore.
Implicit Types (d : doc) (c : list doc) (st : store).
Implicit Types (e t : option string).

(** X14. Deleting bots twice is deleting them once, and deletions of two
    scopes can be done in either order. *)
Theorem delete_bot_idempotent_and_commutes st e t e' t' :
  delete_bot (delete_bot st e t) e t = delete_bot st e t
  ∧ delete_bot (delete_bot st e t) e' t'
    = delete_bot (delete_bot st e' t') e t.
Proof.
  unfold delete_bot, delete_many.
  cbn [slack_bots_collection client_id slack_installations_collection
       installations_indexes bots_indexes fst].
  split; f_equal.
  - apply filter_all_true. by intros d [_ Hd]%filter_elem.
  - apply filter_comm.
Qed.

Lemma step_client_id st (o : op) : client_id (step st o) = client_id st.
Proof. by destruct o. Qed.

(** X15. The installations collection is append-only: after any run of
    the store's operations it consists of what it held before, in the
    same order and unchanged, followed by one document per [save] of the
    run, in call order; no operation removes or rewrites an
    installation. *)
Theorem installations_are_append_only (ops : list op) st :
  slack_installations_collection (run ops st)
  = (slack_installations_collection st
       ++ (installation_doc (client_id st) <$> saved ops))%list
  ∧ client_id (run ops st) = client_id st.
Proof.
  revert st. induction ops as [|o ops IH]; intros st.
  - cbn. by rewrite app_nil_r.
  - change (run (o :: ops) st) with (run ops (step st o)).
    destruct (IH (step st o)) as [-> ->].
    rewrite step_client_id. split; [|done].
    destruct o as [|i|b|e t|e t u]; try done.
    unfold saved. cbn [omap list_omap step save save_bot insert_one
                       slack_installations_collection fmap list_fmap].
    unfold insert_one. by rewrite <- app_assoc.
Qed.

End InstallationHistory.

(** ** The state store: tokens over time *)

Section StateStoreMore.
Import Mongo StateStore.
Implicit Types (d : doc) (c : list doc) (st : store) (s u : string).
Implicit Types (now : Z).

Lemma store_eq st st' :
  expiration_seconds st = expiration_seconds st' →
  slack_oauth_states_collection st = slack_oauth_states_collection st' →
  states_indexes st = states_indexes st' →
  st = st'.
Proof. destruct st, st'. cbn. by intros -> -> ->. Qed.



Lemma keeps_iff_not_live s now d :
  negb (matches (consume_query s now) d) = true ↔ ¬ live s now d.
Proof.
  by rewrite negb_true_iff, <- not_true_iff_false, matches_consume.
Qed.

(** X16. A [consume] that returns false changes nothing: the store is
    exactly as before, be the token unknown, expired or already
    consumed. *)
Theorem failed_consume_changes_nothing st s now :
  (consume s now st).2 = false → (consume s now st).1 = st.
Proof.
  intros Hres. pose proof (proj1 (consume_result_false _ _ _) Hres) as H.
  apply store_eq; try done.
  unfold consume, delete_many. cbn [fst slack_oauth_states_collection].
  apply filter_all_true. intros d Hd. apply keeps_iff_not_live. by apply H.
Qed.

Lemma failed_consume_changes_nothing_witness :
  (consume "unknown-token" 5 (issue "tok" 0 Examples.empty_states).1).1
  = (issue "tok" 0 Examples.empty_states).1.
Proof.
  apply (failed_consume_changes_nothing
           (issue "tok" 0 Examples.empty_states).1 "unknown-token" 5).
  vm_compute. reflexivity.
Defined.



(** X18. Tokens are independent: consuming one token neither removes nor
    changes the records of another, and does not change what a
    [consume] of the other one returns. *)
Theorem consume_leaves_other_tokens st s s' now now' :
  s ≠ s' →
  records_of s' (slack_oauth_states_collection (consume s now st).1)
    = records_of s' (slack_oauth_states_collection st)
  ∧ (consume s' now' (consume s now st).1).2 = (consume s' now' st).2.
Proof.
  intros Hne. unfold consume, delete_many.
  cbn [fst snd slack_oauth_states_collection]. split.
  - unfold records_of. rewrite filter_comm. apply filter_all_true.
    intros d [_ Hs%bool_decide_eq_true]%filter_elem.
    apply keeps_iff_not_live. intros [Hs' _]. congruence.
  - rewrite filter_filter_frame; [done|].
    intros d _ [Hs _]%matches_consume.
    apply keeps_iff_not_live. intros [Hs' _]. congruence.
Qed.

Lemma consume_leaves_other_tokens_witness :
  records_of "b"
    (slack_oauth_states_collection
       (consume "a" 5
          (issue "b" 1 (issue "a" 0 Examples.empty_states).1).1).1)
    = records_of "b"
        (slack_oauth_states_collection
           (issue "b" 1 (issue "a" 0 Examples.empty_states).1).1)
  ∧ (consume "b" 7
       (consume "a" 5
          (issue "b" 1 (issue "a" 0 Examples.empty_states).1).1).1).2
    = (consume "b" 7
         (issue "b" 1 (issue "a" 0 Examples.empty_states).1).1).2.
Proof.
  apply (consume_leaves_other_tokens
           (issue "b" 1 (issue "a" 0 Examples.empty_states).1).1
           "a" "b" 5 7).
  discriminate.
Defined.

(** X19. Nothing sweeps expired records: a record that is not live at
    time [t] stays in the collection through every run of [issue] and
    [consume] calls whose clock readings are not before [t]. *)
Theorem expired_records_stay (ops : list op) st d t :
  d ∈ slack_oauth_states_collection st →
  ¬ expires_after t d →
  Forall (fun o => (t ≤ op_time o)%Z) ops →
  d ∈ slack_oauth_states_collection (run ops st).
Proof.
  intros Hd Hexp Hops. revert st Hd.
  induction Hops as [|o ops Ho _ IH]; intros st Hd; [done|].
  change (run (o :: ops) st) with (run ops (step st o)). apply IH.
  destruct o as [u now|s now]; cbn [step op_time] in *.
  - unfold issue, insert_one. cbn [fst slack_oauth_states_collection].
    apply elem_of_app. by left.
  - apply consume_elem. split; [done|]. intros [_ Hlive]. apply Hexp.
    unfold expires_after in *.
    destruct (d !! "expire_at") as [[|?|x|?|?]|]; try done. lia.
Qed.

Lemma expired_records_stay_witness :
  (list_to_map [("state", VStr "tok"); ("expire_at", VNum 600)] : doc)
  ∈ slack_oauth_states_collection
      (run [Consume "tok" 600; Issue "new" 700; Consume "tok" 800]
         (issue "tok" 0 Examples.empty_states).1).
Proof.
  apply (expired_records_stay
           [Consume "tok" 600; Issue "new" 700; Consume "tok" 800]
           (issue "tok" 0 Examples.empty_states).1 _ 600).
  - apply (bool_decide_unpack _). vm_compute. exact I.
  - apply (bool_decide_unpack _). vm_compute. exact I.
  - apply (bool_decide_unpack _). vm_compute. exact I.
Defined.

Lemma filter_length_lt (p : doc → bool) c d :
  d ∈ c → p d = false → (length (List.filter p c) < length c)%nat.
Proof.
  induction c as [|x c IH]; intros Hd Hp; [by apply elem_of_nil in Hd|].
  pose proof (List.filter_length_le p c) as Hle. cbn [List.filter length].
  apply elem_of_cons in Hd as [<-|Hd].
  - rewrite Hp. lia.
  - specialize (IH Hd Hp). destruct (p x); cbn [length]; lia.
Qed.

Lemma successful_consume_removes_a_record s now st :
  (consume s now st).2 = true →
  (length (records_of s (slack_oauth_states_collection (consume s now st).1))
   < length (records_of s (slack_oauth_states_collection st)))%nat.
Proof.
  intros (d & Hd & Hlive)%consume_result.
  unfold consume, delete_many. cbn [fst slack_oauth_states_collection].
  unfold records_of. rewrite filter_comm.
  apply filter_length_lt with d.
  - apply filter_elem. split; [done|]. apply bool_decide_eq_true.
    apply Hlive.
  - apply negb_false_iff. by apply matches_consume.
Qed.

(** X20. However the calls are interleaved and whatever the clock reads,
    [consume s] returns true at most as many times as there were records
    of [s] to begin with plus [issue] calls that drew [s]. *)
Theorem successes_bounded_by_issues (ops : list op) st s :
  (successes s ops st
   ≤ length (records_of s (slack_oauth_states_collection st))
     + issues_of s ops)%nat.
Proof.
  revert st. induction ops as [|o ops IH]; intros st; [cbn; lia|].
  cbn [successes]. specialize (IH (step st o)).
  change (o :: ops) with ([o] ++ ops)%list. rewrite issues_of_app.
  destruct o as [u now|s' now]; cbn [step] in *.
  - rewrite records_of_issue in IH. lia.
  - change (issues_of s [Consume s' now]) with 0%nat.
    pose proof (records_of_consume s s' now st) as Hle.
    destruct (decide (s' = s)) as [->|Hne].
    + rewrite bool_decide_eq_true_2 by done. cbn [andb].
      destruct ((consume s now st).2) eqn:Hres; [|lia].
      pose proof (successful_consume_removes_a_record s now st Hres). lia.
    + rewrite bool_decide_eq_false_2 by done. cbn [andb]. lia.
Qed.

(** X21. [init] of the state store declares the index on [state], keeps
    the records and the expiration time, never fails, and is idempotent. *)
Theorem state_init_declares_index st :
  ∃ st', init st = Ok st'
         ∧ [("state", ASCENDING)] ∈ states_indexes st'
         ∧ slack_oauth_states_collection st'
           = slack_oauth_states_collection st
         ∧ expiration_seconds st' = expiration_seconds st
         ∧ init st' = Ok st'.
Proof.
  eexists. split; [reflexivity|]. cbn [states_indexes
    slack_oauth_states_collection expiration_seconds].
  split; [apply create_index_elem|]. split; [done|]. split; [done|].
  unfold init. cbn [states_indexes slack_oauth_states_collection
                    expiration_seconds].
  by rewrite (create_index_present _ _ (create_index_elem _ _)).
Qed.

End StateStoreMore.
